(** * Docker port configuration: registry, conflict scan, descriptors, report

    A shallow embedding of [DOCKER_PORT_CONFIGURATION.py] and the properties
    its specification states about it.

    - Python [int] is [Z]; [len] is [Z.of_nat (length _)]; [str] is [string].
    - [PortConfig] objects are mutable and shared between
      [self.port_configs] and the [ports] list of every [ServicePorts]: the
      model keeps them in an object store addressed by location, and both
      lists hold locations.
    - [check_port_availability] talks to the operating system; the scan takes
      the probe as a parameter, and the method itself is modelled over an
      oracle for the outcome of the bind.
    - The float of [availability_percentage] is a binary64 [float]. *)

From Stdlib Require Import ZArith String Ascii List Floats Uint63 Lia.
From stdpp Require Import base functions list gmap strings pretty.

Open Scope Z_scope.

(** ** Strings *)

(** [str(n)] and [f"{n}"] for an [int]: decimal digits, a leading minus sign
    for negative numbers. *)
Definition str_of_int (n : Z) : string := pretty n.

(** [f"{n:02d}"]: at least two characters, padded with zeros on the left (a
    minus sign counts as a character). *)
Definition format_02d (n : Z) : string :=
  if (0 <=? n) && (n <? 10) then "0" +:+ str_of_int n else str_of_int n.

(** [s.replace(a, b)] for one-character strings [a] and [b]. *)
Fixpoint replace_char (a b : ascii) (s : string) : string :=
  match s with
  | EmptyString => EmptyString
  | String c rest =>
      String (if Ascii.eqb c a then b else c) (replace_char a b rest)
  end.

(** The double quote, as a one-character string. *)
Definition dq : string := String "034"%char EmptyString.

(** The line feed. *)
Definition nl : string := String "010"%char EmptyString.

(** [range(a, b)]. *)
Definition range (a b : Z) : list Z :=
  map (fun k : nat => a + Z.of_nat k) (seq 0 (Z.to_nat (b - a))).

(** ** Data model *)

(** [@dataclass PortConfig]. *)
Record PortConfig := mkPortConfig {
  port : Z;
  service : string;
  component : string;
  protocol : string;
  description : string;
  status : string;
  container : option string;
  health_check : option string
}.

(** [PortConfig(port, service, component, protocol, description)]: the three
    remaining fields take their defaults. *)
Definition new_PortConfig (port : Z) (service component protocol description : string)
  : PortConfig :=
  mkPortConfig port service component protocol description "available" None None.

(** [port_config.status = s]. *)
Definition with_status (s : string) (p : PortConfig) : PortConfig :=
  mkPortConfig (port p) (service p) (component p) (protocol p) (description p)
               s (container p) (health_check p).

Global Instance PortConfig_inhabited : Inhabited PortConfig :=
  populate (new_PortConfig 0 EmptyString EmptyString EmptyString EmptyString).

Global Instance PortConfig_eq_dec : EqDecision PortConfig.
Proof. solve_decision. Defined.

(** Locations of [PortConfig] objects, and the object store. Every location
    holds an object: a Python reference never dangles. *)
Definition loc := nat.
Definition store := loc -> PortConfig.

(** [@dataclass ServicePorts]; [ports] holds references. The field
    [component] is [sp_component] here, the name being taken. *)
Record ServicePorts := mkServicePorts {
  service_name : string;
  sp_component : string;
  ports : list loc;
  docker_compose : option string;
  health_check_url : option string
}.

(** [ServicePorts(name, component, ports, docker_compose)]. *)
Definition new_ServicePorts (name component : string) (ports : list loc)
    (docker_compose : string) : ServicePorts :=
  mkServicePorts name component ports (Some docker_compose) None.

(** An element of [self.conflicts]: the dict with keys [port], [services] and
    [conflict_type]. *)
Record ConflictRecord := mkConflict {
  c_port : Z;
  services : list string;
  conflict_type : string
}.

Global Instance ConflictRecord_eq_dec : EqDecision ConflictRecord.
Proof. solve_decision. Defined.

(** The attributes of a [DockerPortConfiguration], with the store of the
    [PortConfig] objects it refers to. [port_allocations] is set to an empty
    dict by [__init__] and never used again; it is left out. *)
Record DockerPortConfiguration := mkSelf {
  base_path : string;
  heap : store;
  port_configs : list loc;
  service_ports : list ServicePorts;
  conflicts : list ConflictRecord;
  port_ranges : list (string * (Z * Z))
}.

(** ** Exceptions *)

Inductive exn :=
| OSError (errno : Z)
| OtherException (name : string).

Inductive result (A : Type) :=
| Returns (a : A)
| Raises (e : exn).
Arguments Returns {A} a.
Arguments Raises {A} e.

(** ** The registry: [initialize_port_configurations] *)

Definition iza_os_table : list PortConfig := [
  new_PortConfig 8001 "iza-memory-core" "iza_os" "http" "Memory Core API";
  new_PortConfig 8002 "iza-agent-orchestration" "iza_os" "http" "Agent Orchestration API";
  new_PortConfig 8003 "iza-venture-factory" "iza_os" "http" "Venture Factory API";
  new_PortConfig 8004 "iza-repository-hub" "iza_os" "http" "Repository Hub API";
  new_PortConfig 8005 "iza-vercept-intelligence" "iza_os" "http" "Vercept Intelligence API";
  new_PortConfig 8006 "iza-command-center" "iza_os" "http" "Command Center API";
  new_PortConfig 8007 "iza-genixbank-financial" "iza_os" "http" "GenixBank Financial API"
].

Definition genixbank_table : list PortConfig := [
  new_PortConfig 8101 "genixbank-banking-api" "genixbank" "http" "Banking API";
  new_PortConfig 8102 "genixbank-compliance-api" "genixbank" "http" "Compliance API";
  new_PortConfig 8103 "genixbank-equity-api" "genixbank" "http" "Equity API";
  new_PortConfig 8104 "genixbank-transaction-api" "genixbank" "http" "Transaction API";
  new_PortConfig 8105 "genixbank-payroll-api" "genixbank" "http" "Payroll API";
  new_PortConfig 8106 "genixbank-dealmaking-api" "genixbank" "http" "Dealmaking API";
  new_PortConfig 8107 "genixbank-dashboard" "genixbank" "http" "Financial Dashboard";
  new_PortConfig 8108 "genixbank-reports" "genixbank" "http" "Financial Reports"
].

Definition traycer_table : list PortConfig := [
  new_PortConfig 8201 "traycer-design-system" "traycer" "http" "Design System API";
  new_PortConfig 8202 "traycer-component-library" "traycer" "http" "Component Library";
  new_PortConfig 8203 "traycer-orchestration" "traycer" "http" "Orchestration API";
  new_PortConfig 8204 "traycer-frontend-proxy" "traycer" "http" "Frontend Proxy";
  new_PortConfig 8205 "traycer-build-system" "traycer" "http" "Build System API"
].

Definition mcp_table : list PortConfig := [
  new_PortConfig 8301 "mcp-claude-agents" "mcp_agents" "http" "Claude Agents MCP";
  new_PortConfig 8302 "mcp-swarms" "mcp_agents" "http" "Swarms MCP";
  new_PortConfig 8303 "mcp-bmad-orchestrator" "mcp_agents" "http" "BMAD Orchestrator MCP";
  new_PortConfig 8304 "mcp-traycer-ai" "mcp_agents" "http" "Traycer AI MCP";
  new_PortConfig 8305 "mcp-cursor-integration" "mcp_agents" "http" "Cursor MCP Integration";
  new_PortConfig 8306 "mcp-github-integration" "mcp_agents" "http" "GitHub MCP Integration"
].

(** The loop that fills [frontend_ports]:
    [for i in range(1, count + 1): port = start + i; append(PortConfig(...))].
    The source runs it with [start = 3000] and [count = 26]. *)
Definition frontend_entry (start i : Z) : PortConfig :=
  let port := start + i in
  new_PortConfig port ("frontend-project-" +:+ format_02d i) "frontend" "http"
                 ("Frontend Project " +:+ str_of_int i).

Definition frontend_block (start : Z) (count : nat) : list PortConfig :=
  map (frontend_entry start) (range 1 (Z.of_nat count + 1)).

Definition frontend_table : list PortConfig := frontend_block 3000 26.

Definition database_table : list PortConfig := [
  new_PortConfig 5001 "postgresql-main" "databases" "tcp" "Main PostgreSQL Database";
  new_PortConfig 5002 "redis-cache" "databases" "tcp" "Redis Cache";
  new_PortConfig 5003 "mongodb-documents" "databases" "tcp" "MongoDB Documents";
  new_PortConfig 5004 "elasticsearch-search" "databases" "tcp" "Elasticsearch Search";
  new_PortConfig 5005 "influxdb-metrics" "databases" "tcp" "InfluxDB Metrics";
  new_PortConfig 5006 "neo4j-graph" "databases" "tcp" "Neo4j Graph Database"
].

Definition api_table : list PortConfig := [
  new_PortConfig 4001 "api-gateway" "apis" "http" "Main API Gateway";
  new_PortConfig 4002 "auth-service" "apis" "http" "Authentication Service";
  new_PortConfig 4003 "user-service" "apis" "http" "User Management Service";
  new_PortConfig 4004 "notification-service" "apis" "http" "Notification Service";
  new_PortConfig 4005 "file-service" "apis" "http" "File Management Service";
  new_PortConfig 4006 "email-service" "apis" "http" "Email Service";
  new_PortConfig 4007 "sms-service" "apis" "http" "SMS Service"
].

Definition monitoring_table : list PortConfig := [
  new_PortConfig 9001 "prometheus" "monitoring" "http" "Prometheus Metrics";
  new_PortConfig 9002 "grafana" "monitoring" "http" "Grafana Dashboard";
  new_PortConfig 9003 "jaeger" "monitoring" "http" "Jaeger Tracing";
  new_PortConfig 9004 "kibana" "monitoring" "http" "Kibana Logs";
  new_PortConfig 9005 "alertmanager" "monitoring" "http" "Alert Manager";
  new_PortConfig 9006 "node-exporter" "monitoring" "http" "Node Exporter"
].

(** The eight literal lists of the method, in the order it writes them. *)
Record tables := mkTables {
  t_iza_os : list PortConfig;
  t_genixbank : list PortConfig;
  t_traycer : list PortConfig;
  t_mcp : list PortConfig;
  t_frontend : list PortConfig;
  t_database : list PortConfig;
  t_api : list PortConfig;
  t_monitoring : list PortConfig
}.

Definition literal_tables : tables :=
  mkTables iza_os_table genixbank_table traycer_table mcp_table
           frontend_table database_table api_table monitoring_table.

(** Evaluating a list of constructor calls allocates its objects one after the
    other: [objs] are the objects allocated so far, and the new ones get the
    next locations. *)
Definition alloc_list (new objs : list PortConfig) : list loc * list PortConfig :=
  (seq (length objs) (length new), objs ++ new).

(** [initialize_port_configurations] with its eight literal lists as a
    parameter: the lists are evaluated, concatenated into
    [self.port_configs], and shared with the eight [ServicePorts]. The store
    of the new state holds the objects allocated here; the state refers to no
    object allocated before. The method has no [raise] and calls nothing that
    fails. *)
Definition initialize_from (t : tables) (self : DockerPortConfiguration)
  : DockerPortConfiguration :=
  let '(iza_os_ports, objs) := alloc_list (t_iza_os t) [] in
  let '(genixbank_ports, objs) := alloc_list (t_genixbank t) objs in
  let '(traycer_ports, objs) := alloc_list (t_traycer t) objs in
  let '(mcp_ports, objs) := alloc_list (t_mcp t) objs in
  let '(frontend_ports, objs) := alloc_list (t_frontend t) objs in
  let '(database_ports, objs) := alloc_list (t_database t) objs in
  let '(api_ports, objs) := alloc_list (t_api t) objs in
  let '(monitoring_ports, objs) := alloc_list (t_monitoring t) objs in
  {| base_path := base_path self;
     heap := fun l => objs !!! l;
     port_configs :=
       iza_os_ports ++ genixbank_ports ++ traycer_ports ++ mcp_ports ++
       frontend_ports ++ database_ports ++ api_ports ++ monitoring_ports;
     service_ports := [
       new_ServicePorts "iza-os" "iza_os" iza_os_ports "docker-compose.iza-os.yml";
       new_ServicePorts "genixbank" "genixbank" genixbank_ports "docker-compose.genixbank.yml";
       new_ServicePorts "traycer" "traycer" traycer_ports "docker-compose.traycer.yml";
       new_ServicePorts "mcp-agents" "mcp_agents" mcp_ports "docker-compose.mcp.yml";
       new_ServicePorts "frontend-projects" "frontend" frontend_ports "docker-compose.frontend.yml";
       new_ServicePorts "databases" "databases" database_ports "docker-compose.databases.yml";
       new_ServicePorts "apis" "apis" api_ports "docker-compose.apis.yml";
       new_ServicePorts "monitoring" "monitoring" monitoring_ports "docker-compose.monitoring.yml"
     ];
     conflicts := conflicts self;
     port_ranges := port_ranges self |}.

Definition initialize_port_configurations (self : DockerPortConfiguration)
  : DockerPortConfiguration :=
  initialize_from literal_tables self.

(** The attributes [__init__] sets before it calls
    [initialize_port_configurations]. *)
Definition blank (base_path : string) : DockerPortConfiguration :=
  {| base_path := base_path;
     heap := fun _ => inhabitant;
     port_configs := [];
     service_ports := [];
     conflicts := [];
     port_ranges := [
       ("iza_os", (8000, 8099));
       ("genixbank", (8100, 8199));
       ("traycer", (8200, 8299));
       ("mcp_agents", (8300, 8399));
       ("frontend", (3000, 3099));
       ("databases", (5000, 5099));
       ("monitoring", (9000, 9099));
       ("apis", (4000, 4099))
     ] |}.

(** [DockerPortConfiguration(base_path)]. *)
Definition init (base_path : string) : DockerPortConfiguration :=
  initialize_port_configurations (blank base_path).

(** The same with other literal lists in the method. *)
Definition init_from (t : tables) (base_path : string) : DockerPortConfiguration :=
  initialize_from t (blank base_path).

Definition default_base_path : string := "/Users/divinejohns/memU/memu".

(** ** The probe: [check_port_availability] *)

(** What the body of the [try] block does for a port: the socket is created
    and bound, and closed again on leaving the [with] block; or the block
    raises. The outcome is the operating system's. *)
Inductive bind_outcome :=
| Bound
| BindRaises (e : exn).

(** [errno] values of Linux. *)
Definition EACCES : Z := 13.
Definition EADDRINUSE : Z := 98.

(** [except OSError: return False] catches every [OSError], whatever its
    [errno]; any other exception leaves the method. *)
Definition check_port_availability (os : Z -> bind_outcome) (port : Z) : result bool :=
  match os port with
  | Bound => Returns true
  | BindRaises (OSError _) => Returns false
  | BindRaises e => Raises e
  end.

(** The probe replaced by a predicate that says which ports are busy. *)
Definition mock_probe (busy : Z -> bool) (port : Z) : result bool :=
  Returns (negb (busy port)).

(** ** The scan: [scan_port_conflicts] *)

(** [port_config.status = s], for the object at [r]. *)
Definition set_status (r : loc) (s : string) (self : DockerPortConfiguration)
  : DockerPortConfiguration :=
  {| base_path := base_path self;
     heap := alter (with_status s) r (heap self);
     port_configs := port_configs self;
     service_ports := service_ports self;
     conflicts := conflicts self;
     port_ranges := port_ranges self |}.

(** [self.conflicts = cs]. *)
Definition set_conflicts (cs : list ConflictRecord) (self : DockerPortConfiguration)
  : DockerPortConfiguration :=
  {| base_path := base_path self;
     heap := heap self;
     port_configs := port_configs self;
     service_ports := service_ports self;
     conflicts := cs;
     port_ranges := port_ranges self |}.

(** [self.conflicts.append(c)]. *)
Definition append_conflict (c : ConflictRecord) (self : DockerPortConfiguration)
  : DockerPortConfiguration :=
  set_conflicts (conflicts self ++ [c]) self.

(** The [for port_config in self.port_configs] loop, over the references
    still to visit. [used_ports] is the local dict of the method. The result
    is the state when the loop ends, and the exception that ended it, if one
    did: the statuses and conflicts written before remain. *)
Fixpoint scan_loop (check : Z -> result bool) (todo : list loc)
    (used_ports : gmap Z string) (self : DockerPortConfiguration)
  : DockerPortConfiguration * gmap Z string * option exn :=
  match todo with
  | [] => (self, used_ports, None)
  | r :: todo =>
      let port_config := heap self r in
      match check (port port_config) with
      | Raises e => (self, used_ports, Some e)
      | Returns available =>
          if negb available then
            let self := set_status r "conflict" self in
            match used_ports !! port port_config with
            | Some first =>
                scan_loop check todo used_ports
                  (append_conflict
                     {| c_port := port port_config;
                        services := [first; service port_config];
                        conflict_type := "port_already_used" |} self)
            | None =>
                scan_loop check todo
                  (<[port port_config := service port_config]> used_ports) self
            end
          else
            scan_loop check todo used_ports (set_status r "available" self)
      end
  end.

(** [scan_port_conflicts]: the state it leaves and the exception it raises,
    if any. The log lines are not modelled. *)
Definition scan_port_conflicts (check : Z -> result bool)
    (self : DockerPortConfiguration) : DockerPortConfiguration * option exn :=
  let self := set_conflicts [] self in
  let '(self, _, raised) := scan_loop check (port_configs self) ∅ self in
  (self, raised).

(** The dict [used_ports] when the loop of [scan_port_conflicts] ends. *)
Definition final_used_ports (check : Z -> result bool)
    (self : DockerPortConfiguration) : gmap Z string :=
  let self := set_conflicts [] self in
  (scan_loop check (port_configs self) ∅ self).1.2.

(** ** Descriptors: [create_docker_compose_content] *)

(** The text before the loop. *)
Definition compose_header : string :=
  "version: '3.8'" +:+ nl +:+
  nl +:+
  "services:" +:+ nl.

(** The text the loop body adds for one [port_config] of [service]. *)
Definition service_block (svc : ServicePorts) (port_config : PortConfig) : string :=
  let service_name := replace_char "-" "_" (service port_config) in
  let p := str_of_int (port port_config) in
  "  " +:+ service_name +:+ ":" +:+ nl +:+
  "    image: " +:+ sp_component svc +:+ ":latest" +:+ nl +:+
  "    container_name: " +:+ service port_config +:+ nl +:+
  "    ports:" +:+ nl +:+
  "      - " +:+ dq +:+ p +:+ ":" +:+ p +:+ dq +:+ nl +:+
  "    environment:" +:+ nl +:+
  "      - PORT=" +:+ p +:+ nl +:+
  "      - COMPONENT=" +:+ sp_component svc +:+ nl +:+
  "      - SERVICE=" +:+ service port_config +:+ nl +:+
  "    healthcheck:" +:+ nl +:+
  "      test: [" +:+ dq +:+ "CMD" +:+ dq +:+ ", " +:+ dq +:+ "curl" +:+ dq +:+ ", "
    +:+ dq +:+ "-f" +:+ dq +:+ ", "
    +:+ dq +:+ "http://localhost:" +:+ p +:+ "/health" +:+ dq +:+ "]" +:+ nl +:+
  "      interval: 30s" +:+ nl +:+
  "      timeout: 10s" +:+ nl +:+
  "      retries: 3" +:+ nl +:+
  "    restart: unless-stopped" +:+ nl +:+
  "    networks:" +:+ nl +:+
  "      - " +:+ sp_component svc +:+ "_network" +:+ nl +:+
  nl.

(** The text after the loop. *)
Definition compose_footer (svc : ServicePorts) : string :=
  "networks:" +:+ nl +:+
  "  " +:+ sp_component svc +:+ "_network:" +:+ nl +:+
  "    driver: bridge" +:+ nl +:+
  nl +:+
  "volumes:" +:+ nl +:+
  "  " +:+ sp_component svc +:+ "_data:" +:+ nl +:+
  "    driver: local" +:+ nl.

Definition create_docker_compose_content (self : DockerPortConfiguration)
    (svc : ServicePorts) : string :=
  let compose_content := compose_header in
  let compose_content :=
    fold_left (fun acc r => acc +:+ service_block svc (heap self r))
              (ports svc) compose_content in
  compose_content +:+ compose_footer svc.

(** ** The report: [generate_port_mapping_report] *)

(** The dict written for a port in [component_ports] and in
    [service_configurations]. *)
Record PortDict := mkPortDict {
  d_port : Z;
  d_service : string;
  d_protocol : string;
  d_description : string;
  d_status : string
}.

Definition port_dict (p : PortConfig) : PortDict :=
  {| d_port := port p;
     d_service := service p;
     d_protocol := protocol p;
     d_description := description p;
     d_status := status p |}.

(** A dict with string keys, in insertion order (the order [json.dump]
    writes). *)
Definition dict (V : Type) := list (string * V).

(** [k in d]. *)
Definition dict_contains {V} (k : string) (d : dict V) : bool :=
  existsb (fun kv => String.eqb kv.1 k) d.

(** [d[k] = v]: a key already there keeps its place. *)
Fixpoint dict_set {V} (k : string) (v : V) (d : dict V) : dict V :=
  match d with
  | [] => [(k, v)]
  | (k', v') :: d =>
      if String.eqb k' k then (k, v) :: d else (k', v') :: dict_set k v d
  end.

(** [d[k]] changed in place by [f], as [d[k].append(x)] does to a list. It is
    only used on a key that is there. *)
Fixpoint dict_alter {V} (f : V -> V) (k : string) (d : dict V) : dict V :=
  match d with
  | [] => []
  | (k', v') :: d =>
      if String.eqb k' k then (k', f v') :: d else (k', v') :: dict_alter f k d
  end.

(** A JSON number of the report: an [int] or a [float]. *)
Inductive number :=
| Int (n : Z)
| Float (x : float).

(** [float(n)], exact for [0 <= n < 2^53]; the counts it is used on are
    lengths of lists. *)
Definition float_of_int (n : Z) : float := PrimFloat.of_uint63 (Uint63.of_Z n).

Inductive arith_error := ZeroDivisionError.

(** [a / b] on two [int]s. *)
Definition true_div (a b : Z) : arith_error + float :=
  if b =? 0 then inl ZeroDivisionError
  else inr (PrimFloat.div (float_of_int a) (float_of_int b)).

(** [x * n], a [float] by an [int]. *)
Definition float_mul_int (x : float) (n : Z) : float :=
  PrimFloat.mul x (float_of_int n).

Record Summary := mkSummary {
  total_ports : Z;
  available_ports : Z;
  conflict_ports : Z;
  availability_percentage : number;
  total_services : Z
}.

Record ServiceConfiguration := mkServiceConfiguration {
  sc_service_name : string;
  sc_component : string;
  port_count : Z;
  sc_docker_compose : option string;
  sc_ports : list PortDict
}.

Record Report := mkReport {
  port_mapping_summary : Summary;
  component_ports : dict (list PortDict);
  port_conflicts : list ConflictRecord;
  service_configurations : list ServiceConfiguration;
  r_port_ranges : list (string * (Z * Z));
  recommendations : list string
}.

(** [len(xs)]. *)
Definition len {A} (xs : list A) : Z := Z.of_nat (length xs).

(** [len([p for p in self.port_configs if p.status == s])]. *)
Definition count_status (s : string) (self : DockerPortConfiguration) : Z :=
  len (List.filter (fun p => String.eqb (status p) s)
                   (map (heap self) (port_configs self))).

(** The body of the loop that groups the ports by component. *)
Definition group_step (self : DockerPortConfiguration)
    (component_ports : dict (list PortDict)) (r : loc) : dict (list PortDict) :=
  let port_config := heap self r in
  let component_ports :=
    if negb (dict_contains (component port_config) component_ports)
    then dict_set (component port_config) [] component_ports
    else component_ports in
  dict_alter (fun l => l ++ [port_dict port_config])
             (component port_config) component_ports.

(** The conditional expression of [availability_percentage]. *)
Definition percentage (available_ports total_ports : Z) : arith_error + number :=
  if 0 <? total_ports then
    match true_div available_ports total_ports with
    | inl e => inl e
    | inr q => inr (Float (float_mul_int q 100))
    end
  else inr (Int 0).

Definition generate_port_mapping_report (self : DockerPortConfiguration)
  : arith_error + Report :=
  let total_ports := len (port_configs self) in
  let available_ports := count_status "available" self in
  let conflict_ports := count_status "conflict" self in
  let component_ports := fold_left (group_step self) (port_configs self) [] in
  match percentage available_ports total_ports with
  | inl e => inl e
  | inr pct =>
      inr {| port_mapping_summary :=
               {| total_ports := total_ports;
                  available_ports := available_ports;
                  conflict_ports := conflict_ports;
                  availability_percentage := pct;
                  total_services := len (service_ports self) |};
             component_ports := component_ports;
             port_conflicts := conflicts self;
             service_configurations :=
               map (fun svc =>
                      {| sc_service_name := service_name svc;
                         sc_component := sp_component svc;
                         port_count := len (ports svc);
                         sc_docker_compose := docker_compose svc;
                         sc_ports := map (fun r => port_dict (heap self r)) (ports svc) |})
                   (service_ports self);
             r_port_ranges := port_ranges self;
             recommendations := [
               "All ports are properly allocated across components";
               "No port conflicts detected";
               "Docker Compose files generated for all services";
               "Health checks configured for all services";
               "Network isolation implemented per component"
             ] |}
  end.

(** ** The files: [generate_docker_compose_files] *)

(** What the run takes from outside the program: the outcome of a bind on a
    port, whether [open(path, 'w')] raises for a path, the text of
    [base_path / name] as [pathlib] joins it, the text
    [json.dump(report, f, indent=2)] writes, and whether printing the summary
    of a report raises (a closed or ASCII-only standard output does). A
    successful [open] is followed by a complete write. *)
Record runtime := mkRuntime {
  rt_bind : Z -> bind_outcome;
  rt_open : string -> option exn;
  rt_path : string -> string -> string;
  rt_json : Report -> string;
  rt_print : Report -> option exn
}.

(** The files, by path: the text each one holds. *)
Definition files := gmap string string.

(** [with open(path, 'w') as f: f.write(content)]. *)
Definition write_text (rt : runtime) (path content : string) (fs : files)
  : files * option exn :=
  match rt_open rt path with
  | Some e => (fs, Some e)
  | None => (<[path := content]> fs, None)
  end.

(** The path of the descriptor of a group; [base_path / None] is a
    [TypeError]. *)
Definition compose_path (rt : runtime) (self : DockerPortConfiguration)
    (svc : ServicePorts) : result string :=
  match docker_compose svc with
  | Some name => Returns (rt_path rt (base_path self) name)
  | None => Raises (OtherException "TypeError")
  end.

(** The [for service in self.service_ports] loop, over the groups still to
    write: the files when it ends, and the exception that ended it, if one
    did. *)
Fixpoint compose_files_loop (rt : runtime) (self : DockerPortConfiguration)
    (todo : list ServicePorts) (fs : files) : files * option exn :=
  match todo with
  | [] => (fs, None)
  | svc :: todo =>
      let compose_content := create_docker_compose_content self svc in
      match compose_path rt self svc with
      | Raises e => (fs, Some e)
      | Returns path =>
          match write_text rt path compose_content fs with
          | (fs, Some e) => (fs, Some e)
          | (fs, None) => compose_files_loop rt self todo fs
          end
      end
  end.

Definition generate_docker_compose_files (rt : runtime)
    (self : DockerPortConfiguration) (fs : files) : files * option exn :=
  compose_files_loop rt self (service_ports self) fs.

(** ** The run: [generate_port_configuration_report] and [main] *)

Definition report_file_name : string := "docker_port_configuration_report.json".

(** [generate_port_configuration_report]: the scan, the descriptors, the
    report and its file, each step only when the one before raised nothing.
    The result is the state and the files the call leaves, and the report it
    returns or the exception it raises. *)
Definition generate_port_configuration_report (rt : runtime)
    (self : DockerPortConfiguration) (fs : files)
  : DockerPortConfiguration * files * (exn + Report) :=
  match scan_port_conflicts (check_port_availability (rt_bind rt)) self with
  | (self, Some e) => (self, fs, inl e)
  | (self, None) =>
      match generate_docker_compose_files rt self fs with
      | (fs, Some e) => (self, fs, inl e)
      | (fs, None) =>
          match generate_port_mapping_report self with
          | inl ZeroDivisionError =>
              (self, fs, inl (OtherException "ZeroDivisionError"))
          | inr report =>
              let report_path := rt_path rt (base_path self) report_file_name in
              match write_text rt report_path (rt_json rt report) fs with
              | (fs, Some e) => (self, fs, inl e)
              | (fs, None) => (self, fs, inr report)
              end
          end
      end
  end.


(** * Vocabulary of the properties *)

(** ** Entries and statuses *)

Definition status_ok (p : PortConfig) : Prop :=
  status p = "available" \/ status p = "conflict".

(** Two objects that differ in their status at most. *)
Definition same_entry (p q : PortConfig) : Prop :=
  with_status EmptyString p = with_status EmptyString q.

Global Arguments set_status : simpl never.
Global Arguments append_conflict : simpl never.

(** ** The scan under a busy-port predicate *)

(** The status the scan writes for a port. *)
Definition verdict (busy : Z -> bool) (p : Z) : string :=
  if busy p then "conflict" else "available".

(** The service of the first entry among [seen] whose port is [p]. *)
Definition first_service (h : store) (seen : list loc) (p : Z) : option string :=
  option_map (fun r => service (h r)) (find (fun r => port (h r) =? p) seen).

(** The records the specification asks for: going down the table, an entry on
    a busy port that an earlier entry is on gives one record, naming the first
    service on that port and its own. *)
Fixpoint spec_conflicts (busy : Z -> bool) (h : store) (seen todo : list loc)
  : list ConflictRecord :=
  match todo with
  | [] => []
  | r :: todo =>
      (if busy (port (h r)) then
         match first_service h seen (port (h r)) with
         | Some first =>
             [ {| c_port := port (h r);
                  services := [first; service (h r)];
                  conflict_type := "port_already_used" |} ]
         | None => []
         end
       else [])
      ++ spec_conflicts busy h (seen ++ [r]) todo
  end.

(** What [used_ports] holds once the entries [seen] are done. *)
Definition tracks (busy : Z -> bool) (h : store) (seen : list loc)
    (used : gmap Z string) : Prop :=
  forall p, used !! p = if busy p then first_service h seen p else None.

(** ** Example registries and operating systems *)

(** A registry of two entries, both on port 8050, and an operating system on
    which every bind succeeds. *)
Definition svcA : PortConfig := new_PortConfig 8050 "svcA" "iza_os" "http" "Service A".
Definition svcB : PortConfig := new_PortConfig 8050 "svcB" "iza_os" "http" "Service B".

Definition duplicate_tables : tables := mkTables [svcA; svcB] [] [] [] [] [] [] [].

Definition duplicate_registry : DockerPortConfiguration :=
  init_from duplicate_tables default_base_path.

Definition os_all_free : Z -> bind_outcome := fun _ => Bound.

(** The predicate a probe over [os] amounts to when no bind raises anything
    but an [OSError]. *)
Definition os_busy (os : Z -> bind_outcome) (p : Z) : bool :=
  match os p with
  | Bound => false
  | BindRaises _ => true
  end.

(** A registry with one entry on a privileged port, and an operating system
    that denies binding below 1024. *)
Definition privileged_tables : tables :=
  mkTables [] [] [] [] [] [] [new_PortConfig 80 "web" "apis" "http" "Web Server"] [].

Definition privileged_registry : DockerPortConfiguration :=
  init_from privileged_tables default_base_path.

Definition os_denies_privileged (p : Z) : bind_outcome :=
  if p <? 1024 then BindRaises (OSError EACCES) else Bound.

(** ** Registries and reports *)

(** The entries of the eight literal lists, in the order of
    [self.port_configs]. *)
Definition all_entries (t : tables) : list PortConfig :=
  t_iza_os t ++ t_genixbank t ++ t_traycer t ++ t_mcp t ++
  t_frontend t ++ t_database t ++ t_api t ++ t_monitoring t.

(** [sum(len(v) for v in d.values())]. *)
Definition sum_lengths {V} (d : dict (list V)) : Z :=
  fold_right Z.add 0 (map (fun kv => len kv.2) d).

(** The states of the program: a new [DockerPortConfiguration], and what a
    scan leaves of such a state, whatever the probe answers and whether or
    not the scan ends with an exception. *)
Inductive reachable : DockerPortConfiguration -> Prop :=
| reachable_init (base : string) : reachable (init base)
| reachable_scan (check : Z -> result bool) (self : DockerPortConfiguration) :
    reachable self -> reachable (scan_port_conflicts check self).1.

(** The busy ports of an example run: the first database port and the
    second. *)
Definition two_busy (p : Z) : bool := (p =? 5001) || (p =? 5002).

(** ** Texts *)

(** [sub in s]. *)
Definition contains (sub s : string) : Prop :=
  exists pre post, s = pre +:+ sub +:+ post.

(** [s.startswith(sub)]. *)
Definition starts_with (sub s : string) : Prop :=
  exists post, s = sub +:+ post.

(** The blocks put one after the other. *)
Definition join (blocks : list string) : string :=
  fold_right String.append EmptyString blocks.

(** [text.split(newline)], and the number of lines of [text] that are
    [line]. *)
Fixpoint lines_of (text : string) : list string :=
  match text with
  | EmptyString => [EmptyString]
  | String c rest =>
      if Ascii.eqb c "010"%char then EmptyString :: lines_of rest
      else match lines_of rest with
           | [] => [String c EmptyString]
           | l :: ls => String c l :: ls
           end
  end.

Definition count_lines (line text : string) : nat :=
  length (List.filter (String.eqb line) (lines_of text)).

(** ** The run *)

(** The status the scan writes for the answer of a probe, if it answers. *)
Definition probe_status (check : Z -> result bool) (p : Z) : option string :=
  match check p with
  | Returns true => Some "available"
  | Returns false => Some "conflict"
  | Raises _ => None
  end.

(** [d.get(k)]. *)
Definition dict_get {V} (k : string) (d : dict V) : option V :=
  option_map snd (find (fun kv => String.eqb kv.1 k) d).

(** A runtime on which every bind, every [open] and every [print] succeeds,
    paths are joined with a slash, and the JSON text is left out. *)
Definition quiet_runtime : runtime :=
  {| rt_bind := fun _ => Bound;
     rt_open := fun _ => None;
     rt_path := fun base name => base +:+ "/" +:+ name;
     rt_json := fun _ => "{}";
     rt_print := fun _ => None |}.

(** The busy ports of the registry, each once. *)
Definition busy_ports (busy : Z -> bool) (self : DockerPortConfiguration) : gset Z :=
  list_to_set (List.filter busy (map (fun r => port (heap self r)) (port_configs self))).

(** The dicts of the entries of component [c] among [ps], in the order of
    [ps]; and what [component_ports] has to hold under the key [c]. *)
Definition entries_of_component (c : string) (ps : list PortConfig) : list PortDict :=
  map port_dict (List.filter (fun p => String.eqb (component p) c) ps).

Definition group_of (c : string) (ps : list PortConfig) : option (list PortDict) :=
  if existsb (fun p => String.eqb (component p) c) ps
  then Some (entries_of_component c ps)
  else None.

(** What the grouping loop keeps: no key twice, and under each key the
    entries of that component seen so far. *)
Definition grouped (d : dict (list PortDict)) (ps : list PortConfig) : Prop :=
  NoDup (map fst d) /\ forall c, dict_get c d = group_of c ps.


(** The exception that writing the descriptor of a group raises, if it
    does: the [TypeError] of a group with no file name, or what [open]
    raises for its path. *)
Definition group_fails (rt : runtime) (self : DockerPortConfiguration)
    (svc : ServicePorts) : option exn :=
  match compose_path rt self svc with
  | Raises e => Some e
  | Returns path => rt_open rt path
  end.

(** * Properties *)

(** ** Strings *)

Lemma append_cons (x : ascii) (a b : string) :
  String x a +:+ b = String x (a +:+ b).
Proof. reflexivity. Qed.

Lemma append_assoc (a b c : string) : (a +:+ b) +:+ c = a +:+ (b +:+ c).
Proof.
  induction a as [|x a IH]; [reflexivity |].
  rewrite !append_cons. f_equal. exact IH.
Qed.

Lemma append_nil_r (a : string) : a +:+ EmptyString = a.
Proof.
  induction a as [|x a IH]; [reflexivity |].
  rewrite append_cons. f_equal. exact IH.
Qed.

(** ** The program on examples *)

Example format_02d_pads :
  format_02d 7 = "07" /\ format_02d 26 = "26" /\ format_02d (-5) = "-5".
Proof. repeat split; reflexivity. Qed.

Example replace_char_all : replace_char "-" "_" "mcp-claude-agents" = "mcp_claude_agents".
Proof. reflexivity. Qed.

Example range_1_5 : range 1 5 = [1; 2; 3; 4].
Proof. reflexivity. Qed.

Example new_registry_shape :
  length (port_configs (init default_base_path)) = 71%nat /\
  map (fun svc => length (ports svc)) (service_ports (init default_base_path))
    = [7; 8; 5; 6; 26; 6; 7; 6]%nat /\
  port_dict (heap (init default_base_path) 26%nat) =
    {| d_port := 3001; d_service := "frontend-project-01"; d_protocol := "http";
       d_description := "Frontend Project 1"; d_status := "available" |}.
Proof. repeat split; vm_compute; reflexivity. Qed.

(** A scan with the ports 5001 and 5002 busy: 69 of 71 ports are left
    available, and no record is written, no port being listed twice. *)
Example scan_with_two_busy_ports :
  option_map
    (fun rep => (port_mapping_summary rep, port_conflicts rep))
    (match generate_port_mapping_report
             (scan_port_conflicts (mock_probe two_busy) (init default_base_path)).1
     with inr rep => Some rep | inl _ => None end)
  = Some ({| total_ports := 71; available_ports := 69; conflict_ports := 2;
             availability_percentage :=
               Float (PrimFloat.mul (PrimFloat.div 69 71) 100);
             total_services := 8 |}, []).
Proof. vm_compute. reflexivity. Qed.

Example new_registry_percentage :
  option_map (fun rep => availability_percentage (port_mapping_summary rep))
    (match generate_port_mapping_report (init default_base_path)
     with inr rep => Some rep | inl _ => None end)
  = Some (Float 100).
Proof. vm_compute. reflexivity. Qed.

(** A probe that raises something other than an OSError ends the scan, with
    the entries before it already marked. *)
Example scan_stops_at_other_exception :
  let os p := if p =? 8003 then BindRaises (OtherException "OverflowError")
              else if p =? 8001 then BindRaises (OSError EADDRINUSE) else Bound in
  let after := scan_port_conflicts (check_port_availability os) (init default_base_path) in
  after.2 = Some (OtherException "OverflowError") /\
  map (fun r => status (heap after.1 r)) [0; 1; 2; 3]%nat
    = ["conflict"; "available"; "available"; "available"].
Proof. vm_compute. split; reflexivity. Qed.

(** ** The scan loop *)

Lemma same_entry_refl p : same_entry p p.
Proof. reflexivity. Qed.

Lemma same_entry_trans p q r : same_entry p q -> same_entry q r -> same_entry p r.
Proof. unfold same_entry. congruence. Qed.

Lemma same_entry_port p q : same_entry p q -> port p = port q.
Proof. intros H. apply (f_equal port) in H. exact H. Qed.

Lemma same_entry_service p q : same_entry p q -> service p = service q.
Proof. intros H. apply (f_equal service) in H. exact H. Qed.

Lemma heap_append_conflict c self : heap (append_conflict c self) = heap self.
Proof. reflexivity. Qed.

Lemma conflicts_append_conflict c self :
  conflicts (append_conflict c self) = conflicts self ++ [c].
Proof. reflexivity. Qed.

Lemma conflicts_set_status r s self :
  conflicts (set_status r s self) = conflicts self.
Proof. reflexivity. Qed.

Lemma heap_set_status r s self l :
  heap (set_status r s self) l =
  if decide (r = l) then with_status s (heap self l) else heap self l.
Proof.
  unfold set_status; simpl. unfold alter, fn_alter.
  destruct (decide (r = l)) as [->|]; reflexivity.
Qed.

Lemma same_entry_set_status r s self l :
  same_entry (heap (set_status r s self) l) (heap self l).
Proof.
  rewrite heap_set_status. destruct (decide (r = l)); reflexivity.
Qed.

(** One round of the loop, whatever the probe answers. *)
Ltac scan_round check used :=
  simpl;
  match goal with
  | |- context [check ?p] =>
      destruct (check p) as [[|]|?]; simpl;
      [ | match goal with
          | |- context [used !! ?k] => destruct (used !! k); simpl
          end | ]
  end.

(** The loop writes nothing but statuses and conflicts. *)
Lemma scan_loop_frame check todo : forall used self,
  let self' := (scan_loop check todo used self).1.1 in
  base_path self' = base_path self /\
  port_configs self' = port_configs self /\
  service_ports self' = service_ports self /\
  port_ranges self' = port_ranges self.
Proof.
  induction todo as [|r todo IH]; intros used self; [simpl; auto |].
  scan_round check used; auto;
    match goal with
    | |- context [scan_loop check todo ?u ?s] => destruct (IH u s) as (?&?&?&?)
    end; auto.
Qed.

Lemma scan_loop_same_entry check todo : forall used self l,
  same_entry (heap (scan_loop check todo used self).1.1 l) (heap self l).
Proof.
  induction todo as [|r todo IH]; intros used self l; [apply same_entry_refl |].
  scan_round check used; try apply same_entry_refl;
    (eapply same_entry_trans; [apply IH |]);
    rewrite ?heap_append_conflict; apply same_entry_set_status.
Qed.

(** An object the loop does not visit is left as it is. *)
Lemma scan_loop_untouched check todo : forall used self l,
  l ∉ todo -> heap (scan_loop check todo used self).1.1 l = heap self l.
Proof.
  induction todo as [|r todo IH]; intros used self l Hl; [reflexivity |].
  apply not_elem_of_cons in Hl as [Hne Hl].
  scan_round check used; try reflexivity;
    rewrite IH by assumption;
    rewrite ?heap_append_conflict, heap_set_status;
    destruct (decide (r = l)); congruence.
Qed.

(** The loop writes no status but the two. *)
Lemma scan_loop_status_ok check todo : forall used self,
  (forall l, status_ok (heap self l)) ->
  forall l, status_ok (heap (scan_loop check todo used self).1.1 l).
Proof.
  induction todo as [|r todo IH]; intros used self Hok l; [apply Hok |].
  scan_round check used; try apply Hok; apply IH; intros l';
    rewrite ?heap_append_conflict, heap_set_status;
    destruct (decide (r = l')); try apply Hok; unfold status_ok; simpl; auto.
Qed.

(** Probes that agree on the ports of the registry give the same scan. *)
Lemma scan_loop_ext check1 check2 todo : forall used self,
  (forall r, r ∈ todo -> check1 (port (heap self r)) = check2 (port (heap self r))) ->
  scan_loop check1 todo used self = scan_loop check2 todo used self.
Proof.
  induction todo as [|r todo IH]; intros used self Hext; [reflexivity |].
  simpl. rewrite <- (Hext r) by (apply elem_of_cons; now left).
  assert (Hnext : forall s r', r' ∈ todo ->
            check1 (port (heap (set_status r s self) r')) =
            check2 (port (heap (set_status r s self) r'))).
  { intros s r' Hr'.
    rewrite (same_entry_port _ _ (same_entry_set_status r s self r')).
    apply Hext. apply elem_of_cons; now right. }
  destruct (check1 (port (heap self r))) as [[|]|e]; simpl; [| | reflexivity].
  - apply IH, Hnext.
  - destruct (used !! port (heap self r)); apply IH; intros r' Hr';
      rewrite ?heap_append_conflict; now apply Hnext.
Qed.

(** *** The scan under a busy-port predicate *)

(** One round of the loop under the predicate [busy]. *)
Ltac mock_round busy used :=
  simpl; unfold mock_probe;
  match goal with
  | |- context [busy ?p] =>
      let Hb := fresh "Hbusy" in
      destruct (busy p) eqn:Hb; simpl;
      [ match goal with
        | |- context [used !! ?k] =>
            let Hu := fresh "Hused" in destruct (used !! k) eqn:Hu; simpl
        end | ];
      fold (mock_probe busy)
  end.

Lemma scan_loop_mock_returns busy todo : forall used self,
  (scan_loop (mock_probe busy) todo used self).2 = None.
Proof.
  induction todo as [|r todo IH]; intros used self; [reflexivity |].
  mock_round busy used; apply IH.
Qed.

Lemma scan_loop_mock_status busy todo : forall used self l,
  l ∈ todo ->
  status (heap (scan_loop (mock_probe busy) todo used self).1.1 l) =
  verdict busy (port (heap self l)).
Proof.
  induction todo as [|r todo IH]; intros used self l Hl;
    [now apply elem_of_nil in Hl |].
  assert (Hstep : forall s, s = verdict busy (port (heap self r)) ->
    forall used' self1,
      heap self1 = heap (set_status r s self) ->
      status (heap (scan_loop (mock_probe busy) todo used' self1).1.1 l) =
      verdict busy (port (heap self l))).
  { intros s Hs used' self1 Hheap.
    destruct (decide (l ∈ todo)) as [Hin|Hnin].
    - rewrite IH by assumption. rewrite Hheap.
      now rewrite (same_entry_port _ _ (same_entry_set_status r s self l)).
    - apply elem_of_cons in Hl as [->|Hl]; [| contradiction].
      rewrite scan_loop_untouched by assumption.
      rewrite Hheap, heap_set_status.
      destruct (decide (r = r)); [| congruence]. simpl. exact Hs. }
  mock_round busy used.
  - apply (Hstep "conflict"); [unfold verdict; now rewrite Hbusy | reflexivity].
  - apply (Hstep "conflict"); [unfold verdict; now rewrite Hbusy | reflexivity].
  - apply (Hstep "available"); [unfold verdict; now rewrite Hbusy | reflexivity].
Qed.

(** *** The conflict list, said from the table *)

Lemma first_service_snoc h seen r p :
  first_service h (seen ++ [r]) p =
  match first_service h seen p with
  | Some f => Some f
  | None => if port (h r) =? p then Some (service (h r)) else None
  end.
Proof.
  unfold first_service.
  induction seen as [|x seen IH]; simpl.
  - destruct (port (h r) =? p); reflexivity.
  - destruct (port (h x) =? p); [reflexivity | exact IH].
Qed.

Lemma tracks_skip busy h seen used r :
  tracks busy h seen used ->
  (busy (port (h r)) = false \/ is_Some (first_service h seen (port (h r)))) ->
  tracks busy h (seen ++ [r]) used.
Proof.
  intros Ht Hr p. rewrite Ht, first_service_snoc.
  destruct (busy p) eqn:Hp; [| reflexivity].
  destruct (first_service h seen p) eqn:Hf; [reflexivity |].
  destruct (Z.eqb_spec (port (h r)) p) as [Heq|]; [| reflexivity].
  subst p. destruct Hr as [Hr | [f Hr]]; congruence.
Qed.

Lemma tracks_insert busy h seen used r :
  tracks busy h seen used ->
  busy (port (h r)) = true ->
  first_service h seen (port (h r)) = None ->
  tracks busy h (seen ++ [r]) (<[port (h r) := service (h r)]> used).
Proof.
  intros Ht Hb Hnone p. rewrite first_service_snoc.
  destruct (decide (port (h r) = p)) as [<-|Hne].
  - rewrite lookup_insert_eq, Hb, Hnone, Z.eqb_refl. reflexivity.
  - rewrite lookup_insert_ne by assumption. rewrite Ht.
    destruct (busy p); [| reflexivity].
    destruct (first_service h seen p); [reflexivity |].
    destruct (Z.eqb_spec (port (h r)) p); [contradiction | reflexivity].
Qed.

Lemma scan_loop_mock_conflicts busy h todo : forall seen used self,
  (forall l, same_entry (heap self l) (h l)) ->
  tracks busy h seen used ->
  conflicts (scan_loop (mock_probe busy) todo used self).1.1 =
    conflicts self ++ spec_conflicts busy h seen todo /\
  tracks busy h (seen ++ todo) (scan_loop (mock_probe busy) todo used self).1.2.
Proof.
  induction todo as [|r todo IH]; intros seen used self Hh Ht.
  - simpl. rewrite !app_nil_r. auto.
  - pose proof (same_entry_port _ _ (Hh r)) as Hport.
    pose proof (same_entry_service _ _ (Hh r)) as Hservice.
    assert (Hh' : forall s c l,
              same_entry (heap (append_conflict c (set_status r s self)) l) (h l)).
    { intros s c l. rewrite heap_append_conflict.
      eapply same_entry_trans; [apply same_entry_set_status | apply Hh]. }
    assert (Hh'' : forall s l, same_entry (heap (set_status r s self) l) (h l)).
    { intros s l. eapply same_entry_trans; [apply same_entry_set_status | apply Hh]. }
    replace (seen ++ r :: todo) with ((seen ++ [r]) ++ todo)
      by now rewrite <- app_assoc.
    mock_round busy used; rewrite Hport in *; rewrite ?Hservice, ?Hbusy.
    + pose proof (Ht (port (h r))) as Hp. rewrite Hbusy, Hused in Hp.
      destruct (IH (seen ++ [r]) used
                  (append_conflict
                     {| c_port := port (h r); services := [s; service (h r)];
                        conflict_type := "port_already_used" |}
                     (set_status r "conflict" self))) as [Hc Hu].
      { apply Hh'. }
      { apply tracks_skip; [assumption | right; rewrite <- Hp; eauto]. }
      split; [| exact Hu].
      rewrite Hc, conflicts_append_conflict, conflicts_set_status, <- Hp.
      now rewrite <- !app_assoc.
    + pose proof (Ht (port (h r))) as Hp. rewrite Hbusy, Hused in Hp.
      destruct (IH (seen ++ [r]) (<[port (h r) := service (h r)]> used)
                  (set_status r "conflict" self)) as [Hc Hu].
      { apply Hh''. }
      { now apply tracks_insert. }
      split; [| exact Hu].
      now rewrite Hc, conflicts_set_status, <- Hp.
    + destruct (IH (seen ++ [r]) used (set_status r "available" self)) as [Hc Hu].
      { apply Hh''. }
      { apply tracks_skip; [assumption | now left]. }
      split; [| exact Hu].
      now rewrite Hc, conflicts_set_status.
Qed.

Lemma scan_port_conflicts_state check self :
  (scan_port_conflicts check self).1 =
  (scan_loop check (port_configs self) ∅ (set_conflicts [] self)).1.1.
Proof.
  unfold scan_port_conflicts. simpl.
  destruct (scan_loop check (port_configs self) ∅ (set_conflicts [] self))
    as [[self' used] raised].
  reflexivity.
Qed.

Lemma scan_port_conflicts_raised check self :
  (scan_port_conflicts check self).2 =
  (scan_loop check (port_configs self) ∅ (set_conflicts [] self)).2.
Proof.
  unfold scan_port_conflicts. simpl.
  destruct (scan_loop check (port_configs self) ∅ (set_conflicts [] self))
    as [[self' used] raised].
  reflexivity.
Qed.

Lemma tracks_empty busy h : tracks busy h [] ∅.
Proof. intros p. rewrite lookup_empty. now destruct (busy p). Qed.

(** The conflict list and the dict of a whole scan under a predicate. *)
Lemma scan_mock_conflicts busy self :
  conflicts (scan_port_conflicts (mock_probe busy) self).1 =
    spec_conflicts busy (heap self) [] (port_configs self) /\
  tracks busy (heap self) (port_configs self)
         (final_used_ports (mock_probe busy) self).
Proof.
  rewrite scan_port_conflicts_state. unfold final_used_ports.
  destruct (scan_loop_mock_conflicts busy (heap self) (port_configs self) []
              ∅ (set_conflicts [] self)) as [Hc Hu].
  - intros l. apply same_entry_refl.
  - apply tracks_empty.
  - split; [exact Hc | exact Hu].
Qed.

Lemma first_service_app h l1 l2 p :
  first_service h (l1 ++ l2) p =
  match first_service h l1 p with
  | Some f => Some f
  | None => first_service h l2 p
  end.
Proof.
  unfold first_service. induction l1 as [|x l1 IH]; simpl; [reflexivity |].
  destruct (port (h x) =? p); [reflexivity | exact IH].
Qed.

(** A later entry on a busy port gives its record. *)
Lemma spec_conflicts_later busy h pre : forall seen r post first,
  busy (port (h r)) = true ->
  first_service h (seen ++ pre) (port (h r)) = Some first ->
  {| c_port := port (h r); services := [first; service (h r)];
     conflict_type := "port_already_used" |}
    ∈ spec_conflicts busy h seen (pre ++ r :: post).
Proof.
  induction pre as [|x pre IH]; intros seen r post first Hb Hf.
  - simpl. rewrite app_nil_r in Hf. rewrite Hb, Hf.
    apply elem_of_cons. now left.
  - simpl. apply elem_of_app. right. apply IH; [assumption |].
    now rewrite <- app_assoc.
Qed.

(** Every record is on a busy port, and comes from an entry and the first
    service before it on its port. *)
Lemma spec_conflicts_inv busy h todo : forall seen c,
  c ∈ spec_conflicts busy h seen todo ->
  busy (c_port c) = true /\
  exists pre r post first,
    todo = pre ++ r :: post /\
    first_service h (seen ++ pre) (port (h r)) = Some first /\
    c = {| c_port := port (h r); services := [first; service (h r)];
           conflict_type := "port_already_used" |}.
Proof.
  induction todo as [|x todo IH]; intros seen c Hc; simpl in Hc.
  - now apply elem_of_nil in Hc.
  - apply elem_of_app in Hc as [Hc|Hc].
    + destruct (busy (port (h x))) eqn:Hb; [| now apply elem_of_nil in Hc].
      destruct (first_service h seen (port (h x))) as [f|] eqn:Hf;
        [| now apply elem_of_nil in Hc].
      apply list_elem_of_singleton in Hc. subst c. split; [exact Hb |].
      exists [], x, todo, f. rewrite app_nil_r. auto.
    + destruct (IH _ _ Hc) as [Hb (pre & r & post & f & -> & Hf & ->)].
      split; [exact Hb |].
      exists (x :: pre), r, post, f. rewrite <- app_assoc in Hf. auto.
Qed.

(** ** The claims about the scan *)

(** C4. For every registry and every busy-port predicate standing in for the
    bind probe, one scan pass ends without an exception, and of the entries of
    the registry exactly those whose port the predicate reports busy have
    status conflict; every other entry has status available. Nothing else
    of an entry is changed. *)
Theorem scan_marks_exactly_the_busy_ports
    (busy : Z -> bool) (self : DockerPortConfiguration) :
  (scan_port_conflicts (mock_probe busy) self).2 = None /\
  port_configs (scan_port_conflicts (mock_probe busy) self).1 = port_configs self /\
  forall r, r ∈ port_configs self ->
    same_entry (heap (scan_port_conflicts (mock_probe busy) self).1 r) (heap self r) /\
    (status (heap (scan_port_conflicts (mock_probe busy) self).1 r) = "conflict"
       <-> busy (port (heap self r)) = true) /\
    (status (heap (scan_port_conflicts (mock_probe busy) self).1 r) = "available"
       <-> busy (port (heap self r)) = false).
Proof.
  rewrite scan_port_conflicts_raised, scan_port_conflicts_state.
  split; [apply scan_loop_mock_returns |].
  split; [apply (scan_loop_frame _ _ _ (set_conflicts [] self)) |].
  intros r Hr. split; [apply (scan_loop_same_entry _ _ _ (set_conflicts [] self)) |].
  rewrite (scan_loop_mock_status busy _ _ (set_conflicts [] self) r Hr).
  simpl. unfold verdict. destruct (busy (port (heap self r))); split; split;
    (reflexivity || discriminate).
Qed.

(** C5. During one scan pass under a busy-port predicate, the dict of the
    scan maps a port to the service of the first entry of the table seen on
    it when the port is busy, and has no key for a free port; and every later
    entry of the table on such a port gives a record of type
    port_already_used naming that first service and its own. The list of
    conflicts holds these records, in table order, and no other. *)
Theorem scan_pairs_later_entries_with_the_first_service
    (busy : Z -> bool) (self : DockerPortConfiguration) :
  (forall p,
     final_used_ports (mock_probe busy) self !! p =
     if busy p then first_service (heap self) (port_configs self) p else None) /\
  (forall pre r post first,
     port_configs self = pre ++ r :: post ->
     busy (port (heap self r)) = true ->
     first_service (heap self) pre (port (heap self r)) = Some first ->
     {| c_port := port (heap self r);
        services := [first; service (heap self r)];
        conflict_type := "port_already_used" |}
       ∈ conflicts (scan_port_conflicts (mock_probe busy) self).1) /\
  conflicts (scan_port_conflicts (mock_probe busy) self).1 =
    spec_conflicts busy (heap self) [] (port_configs self).
Proof.
  destruct (scan_mock_conflicts busy self) as [Hc Hu].
  split; [exact Hu |]. split; [| exact Hc].
  intros pre r post first Htable Hb Hf.
  rewrite Hc, Htable. now apply spec_conflicts_later.
Qed.

(** The statuses after a scan under a predicate. *)
Lemma scan_marks_free_and_busy busy self :
  (forall r, r ∈ port_configs self -> busy (port (heap self r)) = false ->
     status (heap (scan_port_conflicts (mock_probe busy) self).1 r) = "available") /\
  (forall r, r ∈ port_configs self -> busy (port (heap self r)) = true ->
     status (heap (scan_port_conflicts (mock_probe busy) self).1 r) = "conflict").
Proof.
  rewrite scan_port_conflicts_state.
  split; intros r Hr Hb;
    rewrite (scan_loop_mock_status busy _ _ (set_conflicts [] self) r Hr);
    simpl; unfold verdict; now rewrite Hb.
Qed.

(** C1, as stated, fails: with svcA and svcB both on port 8050 and the bind
    on 8050 succeeding, the scan ends with an empty list of conflicts, so
    without the record naming svcA and svcB; both entries are available. *)
Lemma duplicate_on_a_free_port_is_not_recorded :
  map (fun r => (port (heap duplicate_registry r), service (heap duplicate_registry r)))
      (port_configs duplicate_registry) = [(8050, "svcA"); (8050, "svcB")] /\
  check_port_availability os_all_free 8050 = Returns true /\
  conflicts (scan_port_conflicts (check_port_availability os_all_free)
                                 duplicate_registry).1 = [] /\
  ~ {| c_port := 8050; services := ["svcA"; "svcB"];
       conflict_type := "port_already_used" |}
    ∈ conflicts (scan_port_conflicts (check_port_availability os_all_free)
                                     duplicate_registry).1 /\
  map (fun r => status (heap (scan_port_conflicts (check_port_availability os_all_free)
                                                  duplicate_registry).1 r))
      (port_configs duplicate_registry) = ["available"; "available"].
Proof.
  assert (Hc : conflicts (scan_port_conflicts (check_port_availability os_all_free)
                                              duplicate_registry).1 = [])
    by (vm_compute; reflexivity).
  split; [vm_compute; reflexivity |].
  split; [reflexivity |].
  split; [exact Hc |].
  split; [rewrite Hc; apply not_elem_of_nil | vm_compute; reflexivity].
Qed.

(** C1, amended. In a registry that has an entry for svcA on a port, no entry
    before it on that port, and a later entry for svcB on the same port: when
    the probe of that port fails, the scan gives the record of type
    port_already_used naming svcA and svcB; when the probe succeeds, the scan
    gives no record for that port, and both entries are available. *)
Theorem duplicate_port_is_recorded_when_the_probe_fails
    (busy : Z -> bool) (self : DockerPortConfiguration)
    (pre mid post : list loc) (a b : loc) :
  port_configs self = pre ++ a :: mid ++ b :: post ->
  port (heap self b) = port (heap self a) ->
  first_service (heap self) pre (port (heap self a)) = None ->
  (busy (port (heap self a)) = true ->
     {| c_port := port (heap self a);
        services := [service (heap self a); service (heap self b)];
        conflict_type := "port_already_used" |}
       ∈ conflicts (scan_port_conflicts (mock_probe busy) self).1) /\
  (busy (port (heap self a)) = false ->
     (forall c, c ∈ conflicts (scan_port_conflicts (mock_probe busy) self).1 ->
                c_port c <> port (heap self a)) /\
     status (heap (scan_port_conflicts (mock_probe busy) self).1 a) = "available" /\
     status (heap (scan_port_conflicts (mock_probe busy) self).1 b) = "available").
Proof.
  intros Htable Hport Hfirst.
  destruct (scan_mock_conflicts busy self) as [Hc _].
  split.
  - intros Hb. rewrite Hc, Htable.
    replace (pre ++ a :: mid ++ b :: post) with ((pre ++ a :: mid) ++ b :: post)
      by now rewrite <- app_assoc.
    rewrite <- Hport.
    apply spec_conflicts_later; [now rewrite Hport |].
    simpl. rewrite first_service_app, Hport, Hfirst.
    unfold first_service. simpl. now rewrite Z.eqb_refl.
  - intros Hb. split.
    + intros c Hin Heq. rewrite Hc in Hin.
      apply spec_conflicts_inv in Hin as [Hbusy _]. congruence.
    + destruct (scan_marks_free_and_busy busy self) as [Hst _].
      split; apply Hst; rewrite ?Hport; try assumption;
        rewrite Htable; rewrite !elem_of_app, !elem_of_cons, ?elem_of_app, ?elem_of_cons;
        auto.
Qed.

Lemma duplicate_port_is_recorded_when_the_probe_fails_witness :
  {| c_port := 8050; services := ["svcA"; "svcB"];
     conflict_type := "port_already_used" |}
    ∈ conflicts (scan_port_conflicts (mock_probe (fun _ => true)) duplicate_registry).1.
Proof.
  refine (proj1 (duplicate_port_is_recorded_when_the_probe_fails
                   (fun _ => true) duplicate_registry [] [] [] 0%nat 1%nat _ _ _) _);
    reflexivity.
Defined.

(** ** The probe and errors of the operating system *)

Lemma check_port_availability_mock os p :
  (forall name, os p <> BindRaises (OtherException name)) ->
  check_port_availability os p = mock_probe (os_busy os) p.
Proof.
  intros Hos. unfold check_port_availability, mock_probe, os_busy.
  destruct (os p) as [|[errno|name]]; try reflexivity.
  now destruct (Hos name).
Qed.

(** C2, as stated, fails: the bind on port 80 raises an OSError whose errno is
    EACCES, not EADDRINUSE; the scan ends without an exception and the entry
    has status conflict. *)
Lemma permission_denied_is_marked_conflict :
  map (fun r => port (heap privileged_registry r)) (port_configs privileged_registry)
    = [80] /\
  os_denies_privileged 80 = BindRaises (OSError EACCES) /\
  EACCES <> EADDRINUSE /\
  (scan_port_conflicts (check_port_availability os_denies_privileged)
                       privileged_registry).2 = None /\
  map (fun r => status (heap (scan_port_conflicts
                                (check_port_availability os_denies_privileged)
                                privileged_registry).1 r))
      (port_configs privileged_registry) = ["conflict"].
Proof.
  split; [vm_compute; reflexivity |].
  split; [reflexivity |].
  split; [discriminate |].
  split; vm_compute; reflexivity.
Qed.

(** C2, amended. The probe answers False for every OSError of the bind,
    whatever its errno. So when no bind on a port of the registry raises
    anything but an OSError, the scan ends without an exception, and an entry
    whose bind raised an OSError, for address in use or for any other reason,
    has status conflict, like an entry on a busy port; an entry whose bind
    succeeded has status available. *)
Theorem probe_oserror_is_marked_conflict
    (os : Z -> bind_outcome) (self : DockerPortConfiguration) :
  (forall r name, r ∈ port_configs self ->
     os (port (heap self r)) <> BindRaises (OtherException name)) ->
  (forall p errno, os p = BindRaises (OSError errno) ->
     check_port_availability os p = Returns false) /\
  (scan_port_conflicts (check_port_availability os) self).2 = None /\
  (forall r errno, r ∈ port_configs self ->
     os (port (heap self r)) = BindRaises (OSError errno) ->
     status (heap (scan_port_conflicts (check_port_availability os) self).1 r)
       = "conflict") /\
  (forall r, r ∈ port_configs self ->
     os (port (heap self r)) = Bound ->
     status (heap (scan_port_conflicts (check_port_availability os) self).1 r)
       = "available").
Proof.
  intros Hos.
  split.
  { intros p errno Hp. unfold check_port_availability. now rewrite Hp. }
  assert (Heq : scan_port_conflicts (check_port_availability os) self =
                scan_port_conflicts (mock_probe (os_busy os)) self).
  { unfold scan_port_conflicts. rewrite (scan_loop_ext (check_port_availability os)
                                           (mock_probe (os_busy os))); [reflexivity |].
    intros r Hr. apply check_port_availability_mock. intros name. now apply Hos. }
  rewrite Heq.
  destruct (scan_marks_free_and_busy (os_busy os) self) as [Hfree Hbusy].
  split; [rewrite scan_port_conflicts_raised; apply scan_loop_mock_returns |].
  split.
  - intros r errno Hr Hraise. apply Hbusy; [assumption |].
    unfold os_busy. now rewrite Hraise.
  - intros r Hr Hbound. apply Hfree; [assumption |].
    unfold os_busy. now rewrite Hbound.
Qed.

Lemma probe_oserror_is_marked_conflict_witness :
  status (heap (scan_port_conflicts (check_port_availability os_denies_privileged)
                                    privileged_registry).1 0%nat) = "conflict".
Proof.
  refine (proj1 (proj2 (proj2 (probe_oserror_is_marked_conflict
                                 os_denies_privileged privileged_registry _)))
                0%nat EACCES _ _).
  - intros r name Hr. vm_compute in Hr.
    apply list_elem_of_singleton in Hr. subst r. discriminate.
  - vm_compute. apply elem_of_cons. now left.
  - reflexivity.
Defined.

(** ** The registry build *)

(** The references [alloc_list] hands out read back the new objects, whatever
    is allocated later. *)
Lemma alloc_list_read (new : list PortConfig) : forall pre post,
  map (fun l => (pre ++ new ++ post) !!! l) (seq (length pre) (length new)) = new.
Proof.
  induction new as [|x new IH]; intros pre post; [reflexivity |].
  simpl. f_equal.
  - now apply list_lookup_total_middle.
  - replace (pre ++ x :: new ++ post) with ((pre ++ [x]) ++ new ++ post)
      by now rewrite <- app_assoc.
    replace (S (length pre)) with (length (pre ++ [x]))
      by (rewrite length_app; simpl; lia).
    apply IH.
Qed.

Lemma alloc_list_read_in (new pre objs : list PortConfig) :
  (exists post, objs = pre ++ new ++ post) ->
  map (fun l => objs !!! l) (seq (length pre) (length new)) = new.
Proof. intros [post ->]. apply alloc_list_read. Qed.

Ltac read_group :=
  apply alloc_list_read_in;
  first [ eexists; rewrite <- ?app_assoc; reflexivity
        | exists []; rewrite app_nil_r, <- ?app_assoc; reflexivity ].

Lemma init_from_groups t base :
  map (fun svc => map (heap (init_from t base)) (ports svc))
      (service_ports (init_from t base)) =
  [t_iza_os t; t_genixbank t; t_traycer t; t_mcp t;
   t_frontend t; t_database t; t_api t; t_monitoring t].
Proof.
  destruct t as [a b c d e f g h]. unfold init_from, initialize_from, alloc_list.
  simpl.
  change (seq 0 (length a)) with (seq (length (@nil PortConfig)) (length a)).
  repeat (apply (f_equal2 cons); [read_group |]). reflexivity.
Qed.

Lemma init_from_entries t base :
  map (heap (init_from t base)) (port_configs (init_from t base)) = all_entries t.
Proof.
  destruct t as [a b c d e f g h].
  unfold init_from, initialize_from, alloc_list, all_entries. simpl.
  rewrite !map_app.
  change (seq 0 (length a)) with (seq (length (@nil PortConfig)) (length a)).
  repeat (apply (f_equal2 app); [read_group |]). read_group.
Qed.

(** C3, as stated, fails: the build of a table with svcA and svcB both on
    port 8050 gives a registry holding both, each available, with an empty
    list of conflicts; the build is a function that always gives a
    registry. *)
Lemma duplicate_table_is_built_silently :
  ~ NoDup (map port (all_entries duplicate_tables)) /\
  map (fun r => (port (heap duplicate_registry r),
                 service (heap duplicate_registry r),
                 status (heap duplicate_registry r)))
      (port_configs duplicate_registry)
    = [(8050, "svcA", "available"); (8050, "svcB", "available")] /\
  conflicts duplicate_registry = [].
Proof.
  split; [| split; vm_compute; reflexivity].
  intros Hnd. vm_compute in Hnd. apply NoDup_cons in Hnd as [Hnot _].
  apply Hnot, elem_of_cons. now left.
Qed.

(** C3, amended. The build makes no check of the table: whatever the literal
    lists hold, it gives a registry whose entries are those of the lists, in
    order and each as written, grouped as the lists are, with an empty list of
    conflicts. The lists of the source hold 71 entries with no port twice. *)
Theorem registry_build_keeps_every_entry (t : tables) (base : string) :
  map (heap (init_from t base)) (port_configs (init_from t base)) = all_entries t /\
  map (fun svc => map (heap (init_from t base)) (ports svc))
      (service_ports (init_from t base)) =
    [t_iza_os t; t_genixbank t; t_traycer t; t_mcp t;
     t_frontend t; t_database t; t_api t; t_monitoring t] /\
  conflicts (init_from t base) = [] /\
  length (all_entries literal_tables) = 71%nat /\
  NoDup (map port (all_entries literal_tables)).
Proof.
  split; [apply init_from_entries |].
  split; [apply init_from_groups |].
  split; [reflexivity |].
  split; [reflexivity |].
  apply (bool_decide_unpack _). vm_compute. exact I.
Qed.

(** ** The report *)

Lemma len_app {A} (xs ys : list A) : len (xs ++ ys) = len xs + len ys.
Proof. unfold len. rewrite length_app. lia. Qed.

Lemma sum_lengths_dict_set_new {V} (k : string) (d : dict (list V)) :
  dict_contains k d = false ->
  sum_lengths (dict_set k [] d) = sum_lengths d /\
  dict_contains k (dict_set k [] d) = true.
Proof.
  induction d as [|[k' v'] d IH]; simpl; intros Hk.
  - rewrite String.eqb_refl. auto.
  - destruct (String.eqb k' k) eqn:Heq; [discriminate |].
    simpl in Hk. destruct (IH Hk) as [Hs Hc].
    unfold sum_lengths in *. simpl. rewrite Heq. simpl. split; [lia | exact Hc].
Qed.

Lemma sum_lengths_dict_append {V} (k : string) (x : V) (d : dict (list V)) :
  dict_contains k d = true ->
  sum_lengths (dict_alter (fun l => l ++ [x]) k d) = sum_lengths d + 1.
Proof.
  induction d as [|[k' v'] d IH]; simpl; intros Hk; [discriminate |].
  destruct (String.eqb k' k) eqn:Heq; unfold sum_lengths in *; simpl.
  - rewrite len_app. unfold len at 2. simpl. lia.
  - simpl in Hk. rewrite (IH Hk). lia.
Qed.

Lemma sum_lengths_group_step self d r :
  sum_lengths (group_step self d r) = sum_lengths d + 1.
Proof.
  unfold group_step.
  destruct (dict_contains (component (heap self r)) d) eqn:Hc; simpl.
  - now apply sum_lengths_dict_append.
  - destruct (sum_lengths_dict_set_new _ _ Hc) as [Hs Hc'].
    rewrite sum_lengths_dict_append by assumption. lia.
Qed.

Lemma sum_lengths_grouped self refs : forall d,
  sum_lengths (fold_left (group_step self) refs d) = sum_lengths d + len refs.
Proof.
  induction refs as [|r refs IH]; intros d; simpl.
  - unfold len. simpl. lia.
  - rewrite IH, sum_lengths_group_step. unfold len. simpl length. lia.
Qed.

(** The conditional expression never divides by zero. *)
Lemma percentage_returns (a t : Z) :
  percentage a t =
  inr (if 0 <? t
       then Float (PrimFloat.mul (PrimFloat.div (float_of_int a) (float_of_int t))
                                 (float_of_int 100))
       else Int 0).
Proof.
  unfold percentage, true_div, float_mul_int.
  destruct (Z.ltb_spec 0 t) as [Hpos|Hle]; [| reflexivity].
  destruct (Z.eqb_spec t 0) as [->|_]; [lia | reflexivity].
Qed.

(** The report is always produced; its summary and its grouping. *)
Lemma report_returns self :
  exists rep,
    generate_port_mapping_report self = inr rep /\
    total_ports (port_mapping_summary rep) = len (port_configs self) /\
    available_ports (port_mapping_summary rep) = count_status "available" self /\
    conflict_ports (port_mapping_summary rep) = count_status "conflict" self /\
    availability_percentage (port_mapping_summary rep) =
      (if 0 <? len (port_configs self)
       then Float (PrimFloat.mul
                     (PrimFloat.div (float_of_int (count_status "available" self))
                                    (float_of_int (len (port_configs self))))
                     (float_of_int 100))
       else Int 0) /\
    component_ports rep = fold_left (group_step self) (port_configs self) [].
Proof.
  unfold generate_port_mapping_report. rewrite percentage_returns.
  eexists. split; [reflexivity |]. simpl. auto 10.
Qed.

(** C9. For every registry, the report is produced, and its
    port_mapping_summary.total_ports is the sum of the lengths of the lists
    of its component_ports. *)
Theorem total_ports_is_the_sum_of_the_component_lists
    (self : DockerPortConfiguration) :
  exists rep,
    generate_port_mapping_report self = inr rep /\
    total_ports (port_mapping_summary rep) = sum_lengths (component_ports rep).
Proof.
  destruct (report_returns self) as (rep & Hrep & Htotal & _ & _ & _ & Hgroups).
  exists rep. split; [exact Hrep |].
  rewrite Htotal, Hgroups, sum_lengths_grouped. reflexivity.
Qed.

(** C6. For every registry, the report is produced, never a division fault.
    When the registry is empty, total_ports is 0 and availability_percentage
    is the integer 0. Otherwise it is the float
    available_ports / total_ports * 100, computed in that order. *)
Theorem availability_percentage_is_guarded (self : DockerPortConfiguration) :
  exists rep,
    generate_port_mapping_report self = inr rep /\
    total_ports (port_mapping_summary rep) = len (port_configs self) /\
    (port_configs self = [] ->
       total_ports (port_mapping_summary rep) = 0 /\
       availability_percentage (port_mapping_summary rep) = Int 0) /\
    (port_configs self <> [] ->
       availability_percentage (port_mapping_summary rep) =
       Float (PrimFloat.mul
                (PrimFloat.div
                   (float_of_int (available_ports (port_mapping_summary rep)))
                   (float_of_int (total_ports (port_mapping_summary rep))))
                (float_of_int 100))).
Proof.
  destruct (report_returns self) as (rep & Hrep & Htotal & Havail & _ & Hpct & _).
  exists rep. split; [exact Hrep |]. split; [exact Htotal |].
  rewrite Hpct, Htotal, Havail. split.
  - intros ->. split; reflexivity.
  - intros Hne. destruct (port_configs self) as [|r refs]; [contradiction |].
    reflexivity.
Qed.

(** ** The status invariant *)

Lemma init_from_heap t base l : heap (init_from t base) l = all_entries t !!! l.
Proof.
  destruct t as [a b c d e f g h].
  unfold init_from, initialize_from, alloc_list, all_entries. simpl.
  now rewrite <- !app_assoc.
Qed.

Lemma lookup_total_Forall (P : PortConfig -> Prop) (ps : list PortConfig) (l : nat) :
  Forall P ps -> P inhabitant -> P (ps !!! l).
Proof.
  intros Hall Hd. rewrite list_lookup_total_alt.
  destruct (ps !! l) as [p|] eqn:Hl; simpl; [| exact Hd].
  eapply Forall_lookup_1 in Hall; [exact Hall | exact Hl].
Qed.

(** Every object of a new registry has the default status. *)
Lemma init_status base l : status (heap (init base) l) = "available".
Proof.
  change (init base) with (init_from literal_tables base). rewrite init_from_heap.
  apply (lookup_total_Forall (fun p => status p = "available")); [| reflexivity].
  apply (bool_decide_unpack _). vm_compute. exact I.
Qed.

Lemma reachable_status_ok self : reachable self -> forall l, status_ok (heap self l).
Proof.
  induction 1 as [base | check self Hreach IH]; intros l.
  - left. apply init_status.
  - rewrite scan_port_conflicts_state. apply scan_loop_status_ok. exact IH.
Qed.

(** With no status but the two, the two counts make up the total. *)
Lemma count_status_split (ps : list PortConfig) :
  Forall status_ok ps ->
  len (List.filter (fun p => String.eqb (status p) "available") ps) +
  len (List.filter (fun p => String.eqb (status p) "conflict") ps) = len ps.
Proof.
  induction 1 as [|p ps Hp Hps IH]; [reflexivity |].
  unfold len in *. simpl.
  destruct Hp as [Hp|Hp]; rewrite Hp; simpl; lia.
Qed.

(** C10. In every state of the program, a new registry or what scans have
    left of it, the status of every entry is one of the two strings available
    and conflict; and the report made of such a state, scanned or not, has
    available_ports + conflict_ports = total_ports. A new registry has every
    entry available. *)
Theorem report_counts_add_up (self : DockerPortConfiguration) :
  reachable self ->
  (forall base r, status (heap (init base) r) = "available") /\
  (forall r, status (heap self r) = "available" \/ status (heap self r) = "conflict") /\
  exists rep,
    generate_port_mapping_report self = inr rep /\
    available_ports (port_mapping_summary rep) +
    conflict_ports (port_mapping_summary rep) =
    total_ports (port_mapping_summary rep).
Proof.
  intros Hreach.
  split; [apply init_status |].
  pose proof (reachable_status_ok self Hreach) as Hok.
  split; [exact Hok |].
  destruct (report_returns self) as (rep & Hrep & Htotal & Havail & Hconf & _).
  exists rep. split; [exact Hrep |].
  rewrite Htotal, Havail, Hconf. unfold count_status.
  rewrite count_status_split.
  - unfold len. now rewrite length_map.
  - apply Forall_forall. intros p Hp. apply list_elem_of_fmap in Hp as [r [-> _]].
    apply Hok.
Qed.

Lemma report_counts_add_up_witness :
  exists rep,
    generate_port_mapping_report
      (scan_port_conflicts (mock_probe two_busy) (init default_base_path)).1 = inr rep /\
    available_ports (port_mapping_summary rep) +
    conflict_ports (port_mapping_summary rep) =
    total_ports (port_mapping_summary rep).
Proof.
  apply (report_counts_add_up
           (scan_port_conflicts (mock_probe two_busy) (init default_base_path)).1).
  apply reachable_scan, reachable_init.
Defined.

(** ** The frontend block *)

Lemma range_from_1 (count : nat) :
  range 1 (Z.of_nat count + 1) = map (fun k : nat => Z.of_nat k) (seq 1 count).
Proof.
  unfold range. replace (Z.of_nat count + 1 - 1) with (Z.of_nat count) by lia.
  rewrite Nat2Z.id, <- seq_shift, map_map.
  apply map_ext. intros k. lia.
Qed.

Lemma frontend_block_ports (start : Z) (count : nat) :
  map port (frontend_block start count) =
  map (fun k : nat => start + Z.of_nat k) (seq 1 count).
Proof.
  unfold frontend_block. rewrite range_from_1, !map_map. reflexivity.
Qed.

(** C7. The loop that generates the frontend entries, run for N projects from
    rangeStart, gives exactly N entries, and their ports are
    rangeStart+1, ..., rangeStart+N in this order: no gap, and no port twice.
    The source runs it for 26 projects from 3000, the start of the range
    written for the frontend, which gives the ports 3001 to 3026. *)
Theorem frontend_block_is_contiguous (start : Z) (count : nat) :
  length (frontend_block start count) = count /\
  map port (frontend_block start count) =
    map (fun k : nat => start + Z.of_nat k) (seq 1 count) /\
  NoDup (map port (frontend_block start count)) /\
  t_frontend literal_tables = frontend_block 3000 26 /\
  map port (t_frontend literal_tables) = range 3001 3027 /\
  In ("frontend", (3000, 3099)) (port_ranges (init default_base_path)).
Proof.
  split.
  { rewrite <- (length_map port), frontend_block_ports, length_map.
    apply length_seq. }
  split; [apply frontend_block_ports |].
  split; [| split; [reflexivity | split; [reflexivity | simpl; tauto]]].
  rewrite frontend_block_ports.
  assert (Hinj : Inj (=) (=) (fun k : nat => start + Z.of_nat k))
    by (intros j k Hjk; lia).
  apply (NoDup_fmap_2 _), NoDup_seq.
Qed.

(** ** The descriptor *)

Lemma starts_with_here a s : starts_with a (a +:+ s).
Proof. now exists s. Qed.

Lemma starts_with_app a b s : starts_with b s -> starts_with (a +:+ b) (a +:+ s).
Proof. intros [post ->]. exists post. now rewrite append_assoc. Qed.

Lemma contains_here sub s : starts_with sub s -> contains sub s.
Proof. intros [post ->]. now exists EmptyString, post. Qed.

Lemma contains_later a sub s : contains sub s -> contains sub (a +:+ s).
Proof.
  intros (pre & post & ->). exists (a +:+ pre), post. now rewrite append_assoc.
Qed.

(** Finds [sub] in a text written as pieces put together, [sub] being some
    of the pieces in a row. *)
Ltac find_pieces :=
  repeat first
    [ apply contains_here; repeat apply starts_with_app; apply starts_with_here
    | apply contains_later ].

Lemma fold_left_append {A} (f : A -> string) (xs : list A) : forall acc,
  fold_left (fun acc x => acc +:+ f x) xs acc = acc +:+ join (map f xs).
Proof.
  induction xs as [|x xs IH]; intros acc; simpl.
  - now rewrite append_nil_r.
  - now rewrite IH, append_assoc.
Qed.

(** C8. For every component group with K port entries, the descriptor is the
    header, then K service blocks, one per entry and in the order of the
    entries, then the footer; and the block of an entry has the port of that
    entry in the container port mapping, in the environment variable PORT,
    next to COMPONENT and SERVICE, and in the health-check URL
    http://localhost:<port>/health, whatever the protocol of the entry. In
    the descriptors of the eight groups of the registry, the lines that open a
    health check are as many as the entries of the group, the six tcp entries
    of the databases among them. *)
Theorem descriptor_has_one_block_per_port
    (self : DockerPortConfiguration) (svc : ServicePorts) :
  create_docker_compose_content self svc =
    compose_header
    +:+ join (map (fun r => service_block svc (heap self r)) (ports svc))
    +:+ compose_footer svc /\
  length (map (fun r => service_block svc (heap self r)) (ports svc)) =
    length (ports svc) /\
  (forall port_config : PortConfig,
     let p := str_of_int (port port_config) in
     let block := service_block svc port_config in
     contains ("    ports:" +:+ nl +:+ "      - " +:+ dq +:+ p +:+ ":" +:+ p +:+ dq +:+ nl) block /\
     contains ("      - PORT=" +:+ p +:+ nl) block /\
     contains ("      - COMPONENT=" +:+ sp_component svc +:+ nl) block /\
     contains ("      - SERVICE=" +:+ service port_config +:+ nl) block /\
     contains (dq +:+ "http://localhost:" +:+ p +:+ "/health" +:+ dq) block) /\
  Forall (fun group =>
            count_lines "    healthcheck:"
              (create_docker_compose_content (init default_base_path) group)
            = length (ports group))
         (service_ports (init default_base_path)) /\
  map (fun r => protocol (heap (init default_base_path) r))
      (seq 52 6) = ["tcp"; "tcp"; "tcp"; "tcp"; "tcp"; "tcp"].
Proof.
  split.
  { unfold create_docker_compose_content. rewrite fold_left_append.
    now rewrite append_assoc. }
  split; [apply length_map |].
  split.
  { intros port_config p block. subst p block. unfold service_block. cbv zeta.
    repeat split; find_pieces. }
  split; [| reflexivity].
  apply (bool_decide_unpack _). vm_compute. exact I.
Qed.

(** * Further properties of the program *)

(** ** What a scan leaves alone *)

Lemma same_entry_fields p q :
  same_entry p q ->
  port p = port q /\ service p = service q /\ component p = component q /\
  protocol p = protocol q /\ description p = description q /\
  container p = container q /\ health_check p = health_check q.
Proof.
  intros H. destruct p, q. unfold same_entry, with_status in H. simpl in *.
  injection H as -> -> -> -> -> -> ->. repeat split.
Qed.

Lemma same_entry_eq p q : same_entry p q -> status p = status q -> p = q.
Proof.
  intros H Hs. destruct p, q. unfold same_entry, with_status in H. simpl in *.
  injection H as -> -> -> -> -> -> ->. now subst.
Qed.

(** X1. Whatever the probe answers or raises, a scan changes nothing of the
    configuration but the list of conflicts and the status of entries of the
    registry: the base path, the registry, the groups and the ranges are the
    same, every object keeps its port, service, component, protocol,
    description, container and health check, and an object that is not in
    the registry is left as it is. *)
Theorem scan_changes_only_statuses_and_conflicts
    (check : Z -> result bool) (self : DockerPortConfiguration) :
  base_path (scan_port_conflicts check self).1 = base_path self /\
  port_configs (scan_port_conflicts check self).1 = port_configs self /\
  service_ports (scan_port_conflicts check self).1 = service_ports self /\
  port_ranges (scan_port_conflicts check self).1 = port_ranges self /\
  (forall l,
     port (heap (scan_port_conflicts check self).1 l) = port (heap self l) /\
     service (heap (scan_port_conflicts check self).1 l) = service (heap self l) /\
     component (heap (scan_port_conflicts check self).1 l) = component (heap self l) /\
     protocol (heap (scan_port_conflicts check self).1 l) = protocol (heap self l) /\
     description (heap (scan_port_conflicts check self).1 l) = description (heap self l) /\
     container (heap (scan_port_conflicts check self).1 l) = container (heap self l) /\
     health_check (heap (scan_port_conflicts check self).1 l) = health_check (heap self l)) /\
  (forall l, l ∉ port_configs self ->
     heap (scan_port_conflicts check self).1 l = heap self l).
Proof.
  rewrite scan_port_conflicts_state.
  destruct (scan_loop_frame check (port_configs self) ∅ (set_conflicts [] self))
    as (Hb & Hp & Hs & Hr).
  repeat (split; [assumption |]).
  split.
  - intros l. apply same_entry_fields.
    apply (scan_loop_same_entry check _ ∅ (set_conflicts [] self) l).
  - intros l Hl.
    now rewrite (scan_loop_untouched check _ ∅ (set_conflicts [] self) l Hl).
Qed.

(** ** A scan that is cut short *)

Lemma probe_status_returns check p b :
  check p = Returns b ->
  probe_status check p = Some (if b then "available" else "conflict").
Proof. intros H. unfold probe_status. rewrite H. now destruct b. Qed.

(** The loop visits the entries in order up to the first whose probe raises;
    the visited ones have the status of their probe, and nothing else is
    touched. *)
Lemma scan_loop_visits check todo : forall used self,
  exists visited rest,
    todo = visited ++ rest /\
    (forall l, l ∈ visited ->
       Some (status (heap (scan_loop check todo used self).1.1 l)) =
       probe_status check (port (heap self l))) /\
    (forall l, l ∉ visited ->
       heap (scan_loop check todo used self).1.1 l = heap self l) /\
    match (scan_loop check todo used self).2 with
    | None => rest = []
    | Some e => exists r post,
        rest = r :: post /\ check (port (heap self r)) = Raises e
    end.
Proof.
  induction todo as [|r todo IH]; intros used self.
  { exists [], []. simpl. repeat split; auto. intros l Hl.
    now apply elem_of_nil in Hl. }
  assert (Hstep : forall b used' self1,
    check (port (heap self r)) = Returns b ->
    heap self1 = heap (set_status r (if b then "available" else "conflict") self) ->
    exists visited rest,
      r :: todo = visited ++ rest /\
      (forall l, l ∈ visited ->
         Some (status (heap (scan_loop check todo used' self1).1.1 l)) =
         probe_status check (port (heap self l))) /\
      (forall l, l ∉ visited ->
         heap (scan_loop check todo used' self1).1.1 l = heap self l) /\
      match (scan_loop check todo used' self1).2 with
      | None => rest = []
      | Some e => exists r' post,
          rest = r' :: post /\ check (port (heap self r')) = Raises e
      end).
  { intros b used' self1 Hb Hheap.
    assert (Hport : forall l, port (heap self1 l) = port (heap self l)).
    { intros l. rewrite Hheap. apply same_entry_port, same_entry_set_status. }
    destruct (IH used' self1) as (visited & rest & Htodo & Hvis & Hrest & Hend).
    exists (r :: visited), rest. split; [now rewrite Htodo |].
    split; [| split].
    - intros l Hl. destruct (decide (l ∈ visited)) as [Hin|Hnin].
      + rewrite Hvis by assumption. now rewrite Hport.
      + apply elem_of_cons in Hl as [->|Hl]; [| contradiction].
        rewrite Hrest by assumption. rewrite Hheap, heap_set_status.
        destruct (decide (r = r)); [| congruence].
        rewrite (probe_status_returns _ _ _ Hb). reflexivity.
    - intros l Hl. apply not_elem_of_cons in Hl as [Hne Hl].
      rewrite Hrest by assumption. rewrite Hheap, heap_set_status.
      destruct (decide (r = l)); congruence.
    - destruct ((scan_loop check todo used' self1).2) as [e|]; [| exact Hend].
      destruct Hend as (r' & post & -> & Hraise). exists r', post.
      split; [reflexivity |]. now rewrite <- Hport. }
  simpl. destruct (check (port (heap self r))) as [[|]|e] eqn:Hcheck; simpl.
  - apply (Hstep true); reflexivity.
  - destruct (used !! port (heap self r)); apply (Hstep false); reflexivity.
  - exists [], (r :: todo). repeat split; auto.
    + intros l Hl. now apply elem_of_nil in Hl.
    + exists r, todo. auto.
Qed.

(** X2. A scan raises exactly when the probe of some entry of the registry
    raises, and then it raises the exception of the first such entry. The
    entries before that one have the status their probe gave, available for
    True and conflict for False, and every other object is as it was: the
    scan stops there, and does not undo what it wrote. When no probe raises,
    every entry of the registry has the status its probe gave. *)
Theorem scan_stops_at_the_first_probe_that_raises
    (check : Z -> result bool) (self : DockerPortConfiguration) :
  exists visited rest,
    port_configs self = visited ++ rest /\
    (forall l, l ∈ visited ->
       Some (status (heap (scan_port_conflicts check self).1 l)) =
       probe_status check (port (heap self l))) /\
    (forall l, l ∉ visited ->
       heap (scan_port_conflicts check self).1 l = heap self l) /\
    match (scan_port_conflicts check self).2 with
    | None => rest = []
    | Some e => exists r post,
        rest = r :: post /\ check (port (heap self r)) = Raises e
    end.
Proof.
  rewrite scan_port_conflicts_state, scan_port_conflicts_raised.
  apply (scan_loop_visits check (port_configs self) ∅ (set_conflicts [] self)).
Qed.

(** ** A scan after a scan *)

Lemma first_service_ext h1 h2 seen p :
  (forall l, same_entry (h1 l) (h2 l)) ->
  first_service h1 seen p = first_service h2 seen p.
Proof.
  intros Hh. unfold first_service.
  induction seen as [|x seen IH]; simpl; [reflexivity |].
  rewrite (same_entry_port _ _ (Hh x)).
  destruct (port (h2 x) =? p); [| exact IH].
  simpl. now rewrite (same_entry_service _ _ (Hh x)).
Qed.

Lemma spec_conflicts_ext busy h1 h2 todo : forall seen,
  (forall l, same_entry (h1 l) (h2 l)) ->
  spec_conflicts busy h1 seen todo = spec_conflicts busy h2 seen todo.
Proof.
  induction todo as [|r todo IH]; intros seen Hh; simpl; [reflexivity |].
  rewrite (same_entry_port _ _ (Hh r)), (same_entry_service _ _ (Hh r)).
  rewrite (first_service_ext h1 h2 seen _ Hh). now rewrite IH.
Qed.

(** X3. A scan starts from nothing: after any scan, cut short or not, a scan
    under a busy-port predicate leaves the same list of conflicts and the
    same objects as that scan made of the state before. Conflicts do not add
    up from scan to scan, and no status of an earlier scan shows through. In
    particular, scanning twice under one predicate gives what scanning once
    gives. *)
Theorem a_scan_overwrites_the_scan_before
    (check : Z -> result bool) (busy : Z -> bool) (self : DockerPortConfiguration) :
  conflicts (scan_port_conflicts (mock_probe busy)
               (scan_port_conflicts check self).1).1 =
    conflicts (scan_port_conflicts (mock_probe busy) self).1 /\
  (forall l,
     heap (scan_port_conflicts (mock_probe busy)
             (scan_port_conflicts check self).1).1 l =
     heap (scan_port_conflicts (mock_probe busy) self).1 l).
Proof.
  set (s1 := (scan_port_conflicts check self).1).
  assert (Hrefs : port_configs s1 = port_configs self).
  { unfold s1. rewrite scan_port_conflicts_state.
    apply (scan_loop_frame check _ ∅ (set_conflicts [] self)). }
  assert (Hsame : forall l, same_entry (heap s1 l) (heap self l)).
  { intros l. unfold s1. rewrite scan_port_conflicts_state.
    apply (scan_loop_same_entry check _ ∅ (set_conflicts [] self) l). }
  split.
  - destruct (scan_mock_conflicts busy s1) as [-> _].
    destruct (scan_mock_conflicts busy self) as [-> _].
    rewrite Hrefs. now apply spec_conflicts_ext.
  - intros l. rewrite !scan_port_conflicts_state.
    destruct (decide (l ∈ port_configs self)) as [Hin|Hnin].
    + apply same_entry_eq.
      * eapply same_entry_trans;
          [apply (scan_loop_same_entry _ _ ∅ (set_conflicts [] s1) l) |].
        eapply same_entry_trans; [apply Hsame |]. unfold same_entry. symmetry.
        apply (scan_loop_same_entry _ _ ∅ (set_conflicts [] self) l).
      * rewrite (scan_loop_mock_status busy _ ∅ (set_conflicts [] s1) l)
          by now rewrite Hrefs.
        rewrite (scan_loop_mock_status busy _ ∅ (set_conflicts [] self) l)
          by assumption.
        simpl. now rewrite (same_entry_port _ _ (Hsame l)).
    + rewrite (scan_loop_untouched _ _ ∅ (set_conflicts [] s1) l)
        by now rewrite Hrefs.
      rewrite (scan_loop_untouched _ _ ∅ (set_conflicts [] self) l) by assumption.
      simpl. unfold s1. rewrite scan_port_conflicts_state.
      now rewrite (scan_loop_untouched check _ ∅ (set_conflicts [] self) l).
Qed.

(** ** Registries with no port twice *)

Lemma scan_loop_no_port_twice check todo : forall used self,
  NoDup (map (fun r => port (heap self r)) todo) ->
  (forall r, r ∈ todo -> used !! port (heap self r) = None) ->
  conflicts (scan_loop check todo used self).1.1 = conflicts self.
Proof.
  induction todo as [|r todo IH]; intros used self Hnd Hfree; [reflexivity |].
  simpl in Hnd. apply NoDup_cons in Hnd as [Hr Hnd].
  assert (Hports : forall s,
            map (fun r' => port (heap (set_status r s self) r')) todo =
            map (fun r' => port (heap self r')) todo).
  { intros s. apply map_ext. intros r'.
    apply same_entry_port, same_entry_set_status. }
  simpl. destruct (check (port (heap self r))) as [[|]|e]; simpl; [| | reflexivity].
  - rewrite IH; [reflexivity | now rewrite Hports |].
    intros r' Hr'. rewrite (same_entry_port _ _ (same_entry_set_status r _ self r')).
    apply Hfree, elem_of_cons. now right.
  - rewrite (Hfree r) by (apply elem_of_cons; now left).
    rewrite IH; [reflexivity | now rewrite Hports |].
    intros r' Hr'. rewrite (same_entry_port _ _ (same_entry_set_status r _ self r')).
    rewrite lookup_insert_ne.
    + apply Hfree, elem_of_cons. now right.
    + intros Heq. apply Hr. rewrite Heq.
      apply (list_elem_of_fmap_2 (fun r' => port (heap self r'))). exact Hr'.
Qed.

(** X4. When no two entries of the registry are on the same port, a scan
    writes no conflict record, whatever the probe answers or raises: ports
    held by other processes are marked conflict and nothing more. The
    registry of the source is such a registry. *)
Theorem no_record_without_a_port_listed_twice
    (check : Z -> result bool) (self : DockerPortConfiguration) :
  NoDup (map (fun r => port (heap self r)) (port_configs self)) ->
  conflicts (scan_port_conflicts check self).1 = [].
Proof.
  intros Hnd. rewrite scan_port_conflicts_state.
  rewrite scan_loop_no_port_twice; [reflexivity | exact Hnd |].
  intros r _. apply lookup_empty.
Qed.

Lemma no_record_without_a_port_listed_twice_witness :
  conflicts (scan_port_conflicts (mock_probe (fun _ => true))
                                 (init default_base_path)).1 = [].
Proof.
  apply (no_record_without_a_port_listed_twice
           (mock_probe (fun _ => true)) (init default_base_path)).
  apply (bool_decide_unpack _). vm_compute. exact I.
Defined.

(** ** Counting conflicts *)

Lemma first_service_is_Some h seen p :
  is_Some (first_service h seen p) <-> exists r, r ∈ seen /\ port (h r) = p.
Proof.
  unfold first_service. induction seen as [|x seen IH]; simpl.
  - split; [intros [? ?]; discriminate | intros (r & Hr & _)].
    now apply elem_of_nil in Hr.
  - destruct (Z.eqb_spec (port (h x)) p) as [Heq|Hne]; simpl.
    + split; [| eauto]. intros _. exists x. split; [apply elem_of_cons; now left | exact Heq].
    + rewrite IH. split.
      * intros (r & Hr & Hp). exists r. split; [apply elem_of_cons; now right | exact Hp].
      * intros (r & Hr & Hp). apply elem_of_cons in Hr as [->|Hr]; [contradiction |].
        eauto.
Qed.

(** Each entry on a busy port adds one key or one record. *)
Lemma scan_loop_mock_count busy todo : forall used self,
  (length (conflicts (scan_loop (mock_probe busy) todo used self).1.1) +
   size (scan_loop (mock_probe busy) todo used self).1.2 =
   length (conflicts self) + size used +
   length (List.filter (fun r => busy (port (heap self r))) todo))%nat.
Proof.
  induction todo as [|r todo IH]; intros used self; [simpl; lia |].
  assert (Hports : forall s,
            List.filter (fun r' => busy (port (heap (set_status r s self) r'))) todo =
            List.filter (fun r' => busy (port (heap self r'))) todo).
  { intros s. apply filter_ext. intros r'.
    now rewrite (same_entry_port _ _ (same_entry_set_status r s self r')). }
  mock_round busy used; rewrite IH.
  - rewrite conflicts_append_conflict, conflicts_set_status, length_app.
    change (heap (append_conflict ?c ?s)) with (heap s).
    rewrite Hports. simpl. lia.
  - rewrite conflicts_set_status, Hports.
    rewrite map_size_insert_None by assumption. lia.
  - rewrite conflicts_set_status, Hports. lia.
Qed.

Lemma final_used_ports_dom busy self :
  dom (final_used_ports (mock_probe busy) self) = busy_ports busy self.
Proof.
  destruct (scan_mock_conflicts busy self) as [_ Htracks].
  apply set_eq. intros p. rewrite elem_of_dom, Htracks. unfold busy_ports.
  rewrite elem_of_list_to_set, list_elem_of_In, filter_In, <- list_elem_of_In.
  rewrite list_elem_of_fmap.
  destruct (busy p) eqn:Hb.
  - rewrite first_service_is_Some. split.
    + intros (r & Hr & Hp). split; [exists r; auto | reflexivity].
    + intros [(r & Hp & Hr) _]. exists r. auto.
  - split; [intros [? ?]; discriminate | intros [_ ?]; discriminate].
Qed.

Lemma count_by_reference (h : store) (f : loc -> bool) (refs : list loc) :
  (forall r, r ∈ refs -> String.eqb (status (h r)) "conflict" = f r) ->
  length (List.filter (fun p => String.eqb (status p) "conflict") (map h refs)) =
  length (List.filter f refs).
Proof.
  induction refs as [|r refs IH]; intros Hf; [reflexivity |].
  simpl. rewrite (Hf r) by (apply elem_of_cons; now left).
  destruct (f r); simpl; rewrite IH; auto;
    intros r' Hr'; apply Hf, elem_of_cons; now right.
Qed.

(** X5. After a scan under a busy-port predicate, the entries marked
    conflict are as many as the conflict records and the distinct busy ports
    of the registry together: of the entries on one busy port, the first adds
    the port to the dict of the scan and each later one adds a record. So the
    report made then has
    conflict_ports = len(port_conflicts) + the number of distinct busy
    ports. *)
Theorem conflict_ports_are_records_plus_busy_ports
    (busy : Z -> bool) (self : DockerPortConfiguration) :
  exists rep,
    generate_port_mapping_report (scan_port_conflicts (mock_probe busy) self).1
      = inr rep /\
    conflict_ports (port_mapping_summary rep) =
      len (port_conflicts rep) + Z.of_nat (size (busy_ports busy self)).
Proof.
  destruct (report_returns (scan_port_conflicts (mock_probe busy) self).1)
    as (rep & Hrep & _ & _ & Hconf & _).
  exists rep. split; [exact Hrep |].
  assert (Hpc : port_conflicts rep = conflicts (scan_port_conflicts (mock_probe busy) self).1).
  { unfold generate_port_mapping_report in Hrep. rewrite percentage_returns in Hrep.
    injection Hrep as <-. reflexivity. }
  rewrite Hconf, Hpc, <- final_used_ports_dom, size_dom.
  unfold count_status, final_used_ports, len.
  rewrite scan_port_conflicts_state.
  pose proof (scan_loop_mock_count busy (port_configs self) ∅ (set_conflicts [] self))
    as Hcount.
  rewrite map_size_empty in Hcount. simpl in Hcount.
  destruct (scan_loop_frame (mock_probe busy) (port_configs self) ∅
              (set_conflicts [] self)) as (_ & -> & _ & _).
  rewrite (count_by_reference _ (fun r => busy (port (heap self r)))).
  { change (port_configs (set_conflicts [] self)) with (port_configs self). lia. }
  intros r Hr.
  rewrite (scan_loop_mock_status busy _ ∅ (set_conflicts [] self) r Hr). simpl.
  unfold verdict. now destruct (busy (port (heap self r))).
Qed.

(** ** Dicts *)

Lemma dict_contains_get {V} (k : string) (d : dict V) :
  dict_contains k d = true <-> is_Some (dict_get k d).
Proof.
  unfold dict_contains, dict_get. induction d as [|[k' v'] d IH]; simpl.
  - split; [discriminate | intros [? ?]; discriminate].
  - destruct (String.eqb k' k); simpl; [split; eauto | exact IH].
Qed.

Lemma dict_contains_keys {V} (k : string) (d : dict V) :
  dict_contains k d = false -> k ∉ map fst d.
Proof.
  unfold dict_contains. induction d as [|[k' v'] d IH]; simpl; intros Hk.
  - apply not_elem_of_nil.
  - apply orb_false_iff in Hk as [Hne Hk]. apply not_elem_of_cons. split.
    + intros ->. now rewrite String.eqb_refl in Hne.
    + now apply IH.
Qed.

(** Reading a key after writing one. *)
Lemma dict_get_set {V} (k k' : string) (v : V) (d : dict V) :
  dict_get k (dict_set k' v d) = if String.eqb k' k then Some v else dict_get k d.
Proof.
  unfold dict_get. induction d as [|[k0 v0] d IH]; simpl.
  - destruct (String.eqb k' k) eqn:Hk; simpl; rewrite ?Hk; reflexivity.
  - destruct (String.eqb_spec k0 k') as [->|Hne]; simpl.
    + destruct (String.eqb k' k) eqn:Hk; simpl; rewrite ?Hk; reflexivity.
    + destruct (String.eqb_spec k0 k) as [->|Hne']; simpl.
      * destruct (String.eqb_spec k' k) as [->|_]; [contradiction | reflexivity].
      * exact IH.
Qed.

(** Reading a key after changing the value of one in place. *)
Lemma dict_get_alter {V} (f : V -> V) (k k' : string) (d : dict V) :
  dict_get k (dict_alter f k' d) =
  if String.eqb k' k then option_map f (dict_get k d) else dict_get k d.
Proof.
  unfold dict_get. induction d as [|[k0 v0] d IH]; simpl.
  - now destruct (String.eqb k' k).
  - destruct (String.eqb_spec k0 k') as [->|Hne]; simpl.
    + destruct (String.eqb k' k) eqn:Hk; simpl; rewrite ?Hk; reflexivity.
    + destruct (String.eqb_spec k0 k) as [->|Hne']; simpl.
      * destruct (String.eqb_spec k' k) as [->|_]; [contradiction | reflexivity].
      * exact IH.
Qed.

Lemma dict_alter_keys {V} (f : V -> V) (k : string) (d : dict V) :
  map fst (dict_alter f k d) = map fst d.
Proof.
  induction d as [|[k0 v0] d IH]; simpl; [reflexivity |].
  destruct (String.eqb k0 k); simpl; [reflexivity | now rewrite IH].
Qed.

Lemma dict_set_new_keys {V} (k : string) (v : V) (d : dict V) :
  dict_contains k d = false -> map fst (dict_set k v d) = map fst d ++ [k].
Proof.
  unfold dict_contains. induction d as [|[k0 v0] d IH]; simpl; intros Hk;
    [reflexivity |].
  apply orb_false_iff in Hk as [Hne Hk]. rewrite Hne. simpl. now rewrite IH.
Qed.

(** ** The grouping by component *)

Lemma group_of_snoc c ps p :
  group_of c (ps ++ [p]) =
  if String.eqb (component p) c
  then Some (match group_of c ps with Some l => l | None => [] end ++ [port_dict p])
  else group_of c ps.
Proof.
  unfold group_of, entries_of_component.
  rewrite existsb_app, List.filter_app, map_app. simpl.
  destruct (String.eqb (component p) c) eqn:Hc; simpl.
  - rewrite orb_true_r.
    destruct (existsb (fun p0 => String.eqb (component p0) c) ps) eqn:He;
      [reflexivity |].
    replace (List.filter (fun p0 => String.eqb (component p0) c) ps) with (@nil PortConfig);
      [reflexivity |].
    symmetry. induction ps as [|q ps IH]; [reflexivity |].
    simpl in *. apply orb_false_iff in He as [-> He]. now apply IH.
  - now rewrite orb_false_r, !app_nil_r.
Qed.

Lemma group_step_grouped self d ps r :
  grouped d ps -> grouped (group_step self d r) (ps ++ [heap self r]).
Proof.
  intros [Hnd Hget]. unfold group_step.
  set (p := heap self r). set (c0 := component p).
  destruct (dict_contains c0 d) eqn:Hc; simpl.
  - split; [now rewrite dict_alter_keys |].
    intros c. rewrite dict_get_alter, group_of_snoc, Hget. fold c0.
    destruct (String.eqb c0 c) eqn:Hcc; [| reflexivity].
    apply String.eqb_eq in Hcc. subst c.
    apply dict_contains_get in Hc as [l Hl]. rewrite Hget in Hl. now rewrite Hl.
  - split.
    + rewrite dict_alter_keys, dict_set_new_keys by assumption.
      apply NoDup_app. split; [exact Hnd |]. split.
      * intros k Hk Hk'. apply list_elem_of_singleton in Hk'. subst k.
        now apply (dict_contains_keys _ _ Hc).
      * apply NoDup_singleton.
    + intros c. rewrite dict_get_alter, dict_get_set, group_of_snoc, Hget. fold c0.
      destruct (String.eqb c0 c) eqn:Hcc; [| reflexivity].
      apply String.eqb_eq in Hcc. subst c. simpl.
      assert (Hnone : dict_get c0 d = None).
      { destruct (dict_get c0 d) eqn:Hg; [| reflexivity].
        assert (Hs : is_Some (dict_get c0 d)) by (rewrite Hg; eauto).
        apply dict_contains_get in Hs. congruence. }
      rewrite Hget in Hnone. now rewrite Hnone.
Qed.

Lemma fold_group_step_grouped self refs : forall d seen,
  grouped d (map (heap self) seen) ->
  grouped (fold_left (group_step self) refs d) (map (heap self) (seen ++ refs)).
Proof.
  induction refs as [|r refs IH]; intros d seen Hg; simpl.
  - now rewrite app_nil_r.
  - replace (seen ++ r :: refs) with ((seen ++ [r]) ++ refs)
      by now rewrite <- app_assoc.
    apply IH. rewrite map_app. simpl. now apply group_step_grouped.
Qed.

(** X6. In the report of any state, component_ports has no key twice, and
    the list under a component holds the dicts of exactly the entries of the
    registry with that component, in the order of the registry, with the
    status each has then; a component no entry has is not a key. *)
Theorem component_ports_groups_the_registry
    (self : DockerPortConfiguration) :
  exists rep,
    generate_port_mapping_report self = inr rep /\
    NoDup (map fst (component_ports rep)) /\
    forall c,
      dict_get c (component_ports rep) =
      if existsb (fun p => String.eqb (component p) c)
                 (map (heap self) (port_configs self))
      then Some (map port_dict
                   (List.filter (fun p => String.eqb (component p) c)
                                (map (heap self) (port_configs self))))
      else None.
Proof.
  destruct (report_returns self) as (rep & Hrep & _ & _ & _ & _ & Hgroups).
  exists rep. split; [exact Hrep |]. rewrite Hgroups.
  apply (fold_group_step_grouped self (port_configs self) [] []).
  split; [apply NoDup_nil_2 | reflexivity].
Qed.

(** ** The two listings of the report *)

(** The registry of the program is its groups put one after the other. *)
Lemma reachable_groups self :
  reachable self -> port_configs self = concat (map ports (service_ports self)).
Proof.
  induction 1 as [base | check self Hreach IH].
  - reflexivity.
  - rewrite scan_port_conflicts_state.
    destruct (scan_loop_frame check (port_configs self) ∅ (set_conflicts [] self))
      as (_ & -> & -> & _).
    exact IH.
Qed.

Lemma concat_map_map {A B} (g : A -> B) (ls : list (list A)) :
  concat (map (map g) ls) = map g (concat ls).
Proof.
  induction ls as [|l ls IH]; simpl; [reflexivity |]. now rewrite IH, map_app.
Qed.

Lemma sum_len_concat {A} (ls : list (list A)) :
  fold_right Z.add 0 (map len ls) = len (concat ls).
Proof.
  induction ls as [|l ls IH]; simpl; [reflexivity |]. rewrite IH, len_app. lia.
Qed.

Lemma report_service_configurations self rep :
  generate_port_mapping_report self = inr rep ->
  map sc_ports (service_configurations rep) =
    map (map (fun r => port_dict (heap self r))) (map ports (service_ports self)) /\
  map port_count (service_configurations rep) = map len (map ports (service_ports self)).
Proof.
  unfold generate_port_mapping_report. rewrite percentage_returns.
  intros Hrep. injection Hrep as <-. simpl. rewrite !map_map. auto.
Qed.

(** X7. In every state of the program, a new registry or what scans have
    left of it, the report lists the same ports twice: the dicts under
    service_configurations, group after group, are the dicts of the entries
    of the registry in order, each with the status the entry has then, since
    the groups hold the objects of the registry and no copies; and the
    port_count of the groups add up to total_ports. *)
Theorem service_configurations_list_the_registry
    (self : DockerPortConfiguration) :
  reachable self ->
  exists rep,
    generate_port_mapping_report self = inr rep /\
    concat (map sc_ports (service_configurations rep)) =
      map (fun r => port_dict (heap self r)) (port_configs self) /\
    fold_right Z.add 0 (map port_count (service_configurations rep)) =
      total_ports (port_mapping_summary rep).
Proof.
  intros Hreach.
  destruct (report_returns self) as (rep & Hrep & Htotal & _).
  exists rep. split; [exact Hrep |].
  destruct (report_service_configurations self rep Hrep) as [Hports Hcount].
  rewrite Hports, Hcount, Htotal, concat_map_map, sum_len_concat.
  now rewrite <- (reachable_groups self Hreach).
Qed.

Lemma service_configurations_list_the_registry_witness :
  exists rep,
    generate_port_mapping_report
      (scan_port_conflicts (mock_probe two_busy) (init default_base_path)).1 = inr rep /\
    concat (map sc_ports (service_configurations rep)) =
      map (fun r => port_dict
                      (heap (scan_port_conflicts (mock_probe two_busy)
                                                 (init default_base_path)).1 r))
          (port_configs (scan_port_conflicts (mock_probe two_busy)
                                             (init default_base_path)).1) /\
    fold_right Z.add 0 (map port_count (service_configurations rep)) =
      total_ports (port_mapping_summary rep).
Proof.
  apply (service_configurations_list_the_registry
           (scan_port_conflicts (mock_probe two_busy) (init default_base_path)).1).
  apply reachable_scan, reachable_init.
Defined.

(** ** Descriptors and statuses *)

Lemma service_block_same_entry svc p q :
  same_entry p q -> service_block svc p = service_block svc q.
Proof.
  intros H. unfold service_block.
  now rewrite (same_entry_port _ _ H), (same_entry_service _ _ H).
Qed.

(** X8. The descriptor of a group does not depend on the statuses: whatever
    the probe answers or raises, the descriptor of every group is the same
    text after a scan as before it. *)
Theorem scan_leaves_the_descriptors_unchanged
    (check : Z -> result bool) (self : DockerPortConfiguration) (svc : ServicePorts) :
  create_docker_compose_content (scan_port_conflicts check self).1 svc =
  create_docker_compose_content self svc.
Proof.
  unfold create_docker_compose_content. rewrite !fold_left_append.
  f_equal. f_equal. f_equal. apply map_ext. intros r.
  apply service_block_same_entry. rewrite scan_port_conflicts_state.
  apply (scan_loop_same_entry check _ ∅ (set_conflicts [] self) r).
Qed.

(** ** The key of a service block *)

(** X9. [replace] of one character by another leaves no occurrence of the
    first, keeps the length, and changes nothing in a text without it: the
    key of a service block (the service name with [-] replaced by [_]) has
    no hyphen, is as long as the service name, and is the service name when
    that has no hyphen. *)
Theorem replace_char_removes_the_character (a b : ascii) (s : string) :
  a <> b ->
  ~ In a (list_ascii_of_string (replace_char a b s)) /\
  String.length (replace_char a b s) = String.length s /\
  (~ In a (list_ascii_of_string s) -> replace_char a b s = s).
Proof.
  intros Hab. induction s as [|c s (IHin & IHlen & IHid)]; simpl.
  - repeat split; auto.
  - destruct (Ascii.eqb_spec c a) as [->|Hca]; repeat split.
    + intros [Heq|Hin]; [congruence | contradiction].
    + now rewrite IHlen.
    + intros Hnot. exfalso. apply Hnot. now left.
    + intros [Heq|Hin]; [congruence | contradiction].
    + now rewrite IHlen.
    + intros Hnot. rewrite IHid; [reflexivity |]. intros Hin. apply Hnot. now right.
Qed.

Lemma replace_char_removes_the_character_witness :
  ~ In "-"%char (list_ascii_of_string (replace_char "-" "_" "mcp-claude-agents")) /\
  String.length (replace_char "-" "_" "mcp-claude-agents") = String.length "mcp-claude-agents" /\
  (~ In "-"%char (list_ascii_of_string "mcp-claude-agents") ->
   replace_char "-" "_" "mcp-claude-agents" = "mcp-claude-agents").
Proof.
  apply (replace_char_removes_the_character "-" "_" "mcp-claude-agents").
  discriminate.
Defined.

(** ** The descriptor files *)

(** One round of the loop over the groups. *)
Lemma compose_files_loop_cons rt self svc todo fs :
  compose_files_loop rt self (svc :: todo) fs =
  match group_fails rt self svc with
  | Some e => (fs, Some e)
  | None =>
      match compose_path rt self svc with
      | Returns path =>
          compose_files_loop rt self todo
            (<[path := create_docker_compose_content self svc]> fs)
      | Raises e => (fs, Some e)
      end
  end.
Proof.
  simpl. unfold group_fails, write_text.
  destruct (compose_path rt self svc) as [path|e]; [| reflexivity].
  destruct (rt_open rt path); reflexivity.
Qed.

Lemma group_fails_None rt self svc :
  group_fails rt self svc = None ->
  exists path, compose_path rt self svc = Returns path /\ rt_open rt path = None.
Proof.
  unfold group_fails. destruct (compose_path rt self svc) as [path|e]; [eauto | discriminate].
Qed.

(** The loop leaves alone every path that is not the path of a group it
    goes through. *)
Lemma compose_files_loop_other_paths rt self todo : forall fs p,
  (forall svc, svc ∈ todo -> compose_path rt self svc <> Returns p) ->
  (compose_files_loop rt self todo fs).1 !! p = fs !! p.
Proof.
  induction todo as [|svc todo IH]; intros fs p Hp; [reflexivity |].
  rewrite compose_files_loop_cons.
  destruct (group_fails rt self svc) as [e|] eqn:Hfail; [reflexivity |].
  destruct (group_fails_None _ _ _ Hfail) as (path & Hpath & _). rewrite Hpath.
  rewrite IH by (intros svc' Hsvc'; apply Hp, elem_of_cons; now right).
  apply lookup_insert_ne. intros ->. apply (Hp svc); [apply elem_of_cons; now left | exact Hpath].
Qed.



Lemma compose_files_loop_written rt self todo : forall fs pre svc post path,
  (compose_files_loop rt self todo fs).2 = None ->
  todo = pre ++ svc :: post ->
  compose_path rt self svc = Returns path ->
  (forall svc', svc' ∈ post -> compose_path rt self svc' <> Returns path) ->
  (compose_files_loop rt self todo fs).1 !! path =
    Some (create_docker_compose_content self svc).
Proof.
  induction todo as [|x todo IH]; intros fs pre svc post path Hnone Htodo Hpath Hlast.
  { now destruct pre. }
  rewrite compose_files_loop_cons in *.
  destruct (group_fails rt self x) as [e|] eqn:Hfail; [discriminate |].
  destruct (group_fails_None _ _ _ Hfail) as (px & Hpx & _). rewrite Hpx in *.
  destruct pre as [|y pre]; simpl in Htodo; injection Htodo as -> ->.
  - rewrite compose_files_loop_other_paths by assumption.
    assert (px = path) as -> by congruence. apply lookup_insert_eq.
  - now apply (IH _ pre svc post path).
Qed.

(** X11. When writing the descriptors raises nothing, the file of every
    group holds the descriptor of that group, as long as no later group has
    the same path; a later group with the same path overwrites it. *)
Theorem descriptor_files_hold_the_descriptors
    (rt : runtime) (self : DockerPortConfiguration) (fs : files)
    (pre post : list ServicePorts) (svc : ServicePorts) (path : string) :
  (generate_docker_compose_files rt self fs).2 = None ->
  service_ports self = pre ++ svc :: post ->
  compose_path rt self svc = Returns path ->
  (forall svc', svc' ∈ post -> compose_path rt self svc' <> Returns path) ->
  (generate_docker_compose_files rt self fs).1 !! path =
    Some (create_docker_compose_content self svc).
Proof.
  unfold generate_docker_compose_files. apply compose_files_loop_written.
Qed.

Lemma descriptor_files_hold_the_descriptors_witness :
  (generate_docker_compose_files quiet_runtime (init default_base_path) ∅).1
    !! (default_base_path +:+ "/" +:+ "docker-compose.databases.yml") =
  Some (create_docker_compose_content (init default_base_path)
          (new_ServicePorts "databases" "databases" (seq 52 6)
                            "docker-compose.databases.yml")).
Proof.
  apply (descriptor_files_hold_the_descriptors quiet_runtime (init default_base_path) ∅
           (take 5 (service_ports (init default_base_path)))
           (drop 6 (service_ports (init default_base_path)))).
  - vm_compute. reflexivity.
  - reflexivity.
  - reflexivity.
  - intros svc' Hin Heq. vm_compute in Hin.
    repeat (apply elem_of_cons in Hin as [->|Hin]; [vm_compute in Heq; discriminate |]).
    now apply elem_of_nil in Hin.
Defined.

(** ** The run *)





Lemma scan_base_path check self :
  base_path (scan_port_conflicts check self).1 = base_path self /\
  service_ports (scan_port_conflicts check self).1 = service_ports self.
Proof.
  rewrite scan_port_conflicts_state.
  destruct (scan_loop_frame check (port_configs self) ∅ (set_conflicts [] self))
    as (Hb & _ & Hs & _).
  auto.
Qed.

(** X12. The run does its steps in order and stops at the first that
    raises. The state it leaves is the scanned state. When the scan raises,
    the run raises the same exception and no file is written. When the run
    returns a report, the scan and the descriptors raised nothing, the report
    is the report of the scanned state, and the files are those of the
    descriptors with the report file, holding the JSON text of that report,
    written last. *)
Theorem the_run_reports_the_scanned_state
    (rt : runtime) (self : DockerPortConfiguration) (fs : files) :
  let scanned := scan_port_conflicts (check_port_availability (rt_bind rt)) self in
  let run := generate_port_configuration_report rt self fs in
  let report_path := rt_path rt (base_path self) report_file_name in
  run.1.1 = scanned.1 /\
  (forall e, scanned.2 = Some e -> run.2 = inl e /\ run.1.2 = fs) /\
  (forall report, run.2 = inr report ->
     scanned.2 = None /\
     (generate_docker_compose_files rt scanned.1 fs).2 = None /\
     generate_port_mapping_report scanned.1 = inr report /\
     rt_open rt report_path = None /\
     run.1.2 = <[report_path := rt_json rt report]>
                 (generate_docker_compose_files rt scanned.1 fs).1).
Proof.
  intros scanned run report_path. subst run report_path.
  unfold generate_port_configuration_report. fold scanned.
  rewrite <- (proj1 (scan_base_path (check_port_availability (rt_bind rt)) self)).
  fold scanned.
  destruct scanned as [s1 [e|]]; simpl.
  { split; [reflexivity |]. split; [intros e' [= <-]; auto | discriminate]. }
  destruct (generate_docker_compose_files rt s1 fs) as [fs1 [e|]]; simpl.
  { split; [reflexivity |]. split; discriminate. }
  destruct (generate_port_mapping_report s1) as [[]|rep]; simpl.
  { split; [reflexivity |]. split; discriminate. }
  unfold write_text.
  destruct (rt_open rt (rt_path rt (base_path s1) report_file_name)); simpl.
  { split; [reflexivity |]. split; discriminate. }
  split; [reflexivity |]. split; [discriminate |].
  intros report [= <-]. auto.
Qed.


(** ** The objects of a new registry *)

Lemma seq_seq (a n m : nat) : seq a n ++ seq (a + n) m = seq a (n + m).
Proof. symmetry. apply seq_app. Qed.

(** X14. Whatever the literal lists hold, the registry that
    [initialize_port_configurations] builds is its eight groups put one
    after the other, and it refers to every object once: the groups share
    their objects with the registry and none with each other, so a scan
    probes every entry once, and a status it writes shows in the group of
    the entry. *)
Theorem new_registry_holds_every_object_once (t : tables) (base : string) :
  port_configs (init_from t base) =
    concat (map ports (service_ports (init_from t base))) /\
  NoDup (port_configs (init_from t base)) /\
  length (port_configs (init_from t base)) = length (all_entries t).
Proof.
  destruct t as [a b c d e f g h].
  unfold init_from, initialize_from, alloc_list, all_entries. simpl.
  split; [now rewrite app_nil_r |].
  rewrite !length_app, !app_assoc. repeat rewrite (seq_seq 0).
  split; [apply NoDup_seq |]. rewrite !length_seq. lia.
Qed.
